(** * pkg-id/uuid: RFC 4122 version-4 identifiers

    A shallow embedding of [uuid.go]: the 16-byte identifier, its canonical
    36-character text form ([String], [Parse]), the version-4 predicate
    ([IsV4]) and the generator ([V4Generator.NewUUID]) together with the
    readers it draws its bytes from.

    Conventions.
    - A Go [byte] is a [Z] in [0, 256); every operation that could leave that
      range writes its wrap-around ([mod 256]) out.
    - A Go [string] is a Rocq [string]: both are sequences of 8-bit
      characters, [len] is [String.length] and [s[i]] is the code of the
      i-th character.
    - Go run-time panics (index or slice bounds out of range) and loops that
      need more steps than the fuel allows are results of the [exec] monad,
      so that "the call returns" is a statement one proves. *)

From Stdlib Require Import ZArith String Ascii Bool List Lia.
Import ListNotations.

Open Scope Z_scope.

(** ** The Go run time *)

Module Go.

Inductive exec (A : Type) : Type :=
| Ret (a : A)
| Panic
| OutOfFuel.

Arguments Ret {A} a.
Arguments Panic {A}.
Arguments OutOfFuel {A}.

Definition bind {A B : Type} (m : exec A) (k : A -> exec B) : exec B :=
  match m with
  | Ret a => k a
  | Panic => Panic
  | OutOfFuel => OutOfFuel
  end.

Definition fmap {A B : Type} (f : A -> B) (m : exec A) : exec B :=
  bind m (fun a => Ret (f a)).

Definition byte := Z.

Definition is_byte (b : byte) : bool := (0 <=? b) && (b <? 256).

(** [len(s)] and [s[i]] on strings; an index out of range panics. *)
Definition len (s : string) : nat := String.length s.

Definition code (c : ascii) : byte := Z.of_N (N_of_ascii c).

Definition index (s : string) (i : nat) : exec byte :=
  match String.get i s with
  | Some c => Ret (code c)
  | None => Panic
  end.

(** [string(b)] for a byte slice [b]. *)
Definition char (b : byte) : ascii := ascii_of_N (Z.to_N b).

Fixpoint string_of_bytes (l : list byte) : string :=
  match l with
  | [] => EmptyString
  | b :: rest => String (char b) (string_of_bytes rest)
  end.

(** Arrays and the memory behind slices are lists; [upd i v l] is the
    assignment [l[i] = v] for an index the caller has checked. *)
Fixpoint upd {A : Type} (i : nat) (v : A) (l : list A) : list A :=
  match l, i with
  | [], _ => []
  | _ :: rest, O => v :: rest
  | x :: rest, S i' => x :: upd i' v rest
  end.

(** [a[lo:hi]] on an array value, read only. *)
Definition sub {A : Type} (lo hi : nat) (l : list A) : list A :=
  skipn lo (firstn hi l).

(** A slice is a window on a backing array: where it starts, its length and
    its capacity. Writes through a slice land in the backing array, so two
    slices of one array alias. *)
Record slice : Type := Slice { off : nat; size : nat; cap : nat }.

(** [d[lo:hi]]: panics unless [lo <= hi <= cap(d)]. *)
Definition reslice (d : slice) (lo hi : nat) : exec slice :=
  if ((lo <=? hi) && (hi <=? cap d))%nat
  then Ret (Slice (off d + lo) (hi - lo) (cap d - lo))
  else Panic.

(** [d[j] = v]: panics unless [j < len(d)]. *)
Definition store (mem : list byte) (d : slice) (j : nat) (v : byte)
  : exec (list byte) :=
  if (j <? size d)%nat then Ret (upd (off d + j) v mem) else Panic.

(** [copy(mem[pos:], data)] when the data fits. *)
Fixpoint write_at (pos : nat) (data mem : list byte) : list byte :=
  match data with
  | [] => mem
  | b :: rest => write_at (S pos) rest (upd pos b mem)
  end.

(** Errors. [fmt.Errorf] and [errors.New] build a value known by its
    message; [io.EOF] and [io.ErrUnexpectedEOF] are sentinels compared by
    identity. *)
Inductive error : Type :=
| errorString (msg : string)
| EOF
| ErrUnexpectedEOF
| ErrShortBuffer.

Definition Error (e : error) : string :=
  match e with
  | errorString msg => msg
  | EOF => "EOF"
  | ErrUnexpectedEOF => "unexpected EOF"
  | ErrShortBuffer => "short buffer"
  end.

(** [fmt.Errorf(format + "%s", s)] for a string argument: the argument's
    bytes follow the text of the format. *)
Definition Errorf (prefix s : string) : error := errorString (prefix ++ s).

End Go.

Export Go.

Notation "x <- m ;; k" := (bind m (fun x => k))
  (at level 61, m at next level, right associativity).
Notation "' p <- m ;; k" := (bind m (fun x => let 'p := x in k))
  (at level 61, p pattern, m at next level, right associativity).

(** ** encoding/hex *)

Module hex.

Definition hextable : string := "0123456789abcdef".

(** [hex.Encode(dst, src)]: two characters of [hextable] per source byte,
    written at [dst[0]], [dst[1]], ... *)
Fixpoint Encode_from (j : nat) (src : list byte) (dst : slice)
    (mem : list byte) : exec (list byte) :=
  match src with
  | [] => Ret mem
  | v :: rest =>
      hi <- index hextable (Z.to_nat (Z.shiftr v 4)) ;;
      mem1 <- store mem dst j hi ;;
      lo <- index hextable (Z.to_nat (Z.land v 15)) ;;
      mem2 <- store mem1 dst (j + 1) lo ;;
      Encode_from (j + 2) rest dst mem2
  end.

Definition Encode (dst : slice) (src : list byte) (mem : list byte)
  : exec (list byte) :=
  Encode_from 0 src dst mem.

End hex.

(** ** The identifier and its codec *)

(** [type UUID [16]byte]: a list that is well formed when it holds sixteen
    bytes. *)
Definition UUID := list byte.

Definition wf_uuid (u : UUID) : bool :=
  (length u =? 16)%nat && forallb is_byte u.

(** [var Nil UUID]: the zero value. *)
Definition Nil : UUID := repeat 0 16.

(** [a == b] on arrays. *)
Fixpoint UUID_eqb (a b : UUID) : bool :=
  match a, b with
  | [], [] => true
  | x :: a', y :: b' => (x =? y) && UUID_eqb a' b'
  | _, _ => false
  end.

(** [uid[i]] for a constant index of the array. *)
Definition at_ (u : UUID) (i : nat) : byte := nth i u 0.

Definition IsV4 (uid : UUID) : bool :=
  if UUID_eqb uid Nil then true
  else if negb (Z.shiftr (at_ uid 6) 4 =? 4) then false
  else if negb (Z.shiftr (at_ uid 8) 6 =? 2) then false
  else true.

Definition dash : byte := 45.

Definition encodeHex (dst : slice) (id : UUID) (mem : list byte)
  : exec (list byte) :=
  mem <- hex.Encode dst (sub 0 4 id) mem ;;
  mem <- store mem dst 8 dash ;;
  d <- reslice dst 9 13 ;;
  mem <- hex.Encode d (sub 4 6 id) mem ;;
  mem <- store mem dst 13 dash ;;
  d <- reslice dst 14 18 ;;
  mem <- hex.Encode d (sub 6 8 id) mem ;;
  mem <- store mem dst 18 dash ;;
  d <- reslice dst 19 23 ;;
  mem <- hex.Encode d (sub 8 10 id) mem ;;
  mem <- store mem dst 23 dash ;;
  d <- reslice dst 24 (size dst) ;;
  hex.Encode d (sub 10 16 id) mem.

(** [String]: a zeroed 36-byte buffer, filled through the slice [buf[:]]. *)
Definition String_ (id : UUID) : exec string :=
  let buf := repeat 0 36 in
  mem <- encodeHex (Slice 0 36 36) id buf ;;
  Ret (string_of_bytes mem).

Definition hexValues : list byte := [
  0xff; 0xff; 0xff; 0xff; 0xff; 0xff; 0xff; 0xff; 0xff; 0xff; 0xff; 0xff; 0xff; 0xff; 0xff; 0xff;
  0xff; 0xff; 0xff; 0xff; 0xff; 0xff; 0xff; 0xff; 0xff; 0xff; 0xff; 0xff; 0xff; 0xff; 0xff; 0xff;
  0xff; 0xff; 0xff; 0xff; 0xff; 0xff; 0xff; 0xff; 0xff; 0xff; 0xff; 0xff; 0xff; 0xff; 0xff; 0xff;
  0x00; 0x01; 0x02; 0x03; 0x04; 0x05; 0x06; 0x07; 0x08; 0x09; 0xff; 0xff; 0xff; 0xff; 0xff; 0xff;
  0xff; 0x0a; 0x0b; 0x0c; 0x0d; 0x0e; 0x0f; 0xff; 0xff; 0xff; 0xff; 0xff; 0xff; 0xff; 0xff; 0xff;
  0xff; 0xff; 0xff; 0xff; 0xff; 0xff; 0xff; 0xff; 0xff; 0xff; 0xff; 0xff; 0xff; 0xff; 0xff; 0xff;
  0xff; 0x0a; 0x0b; 0x0c; 0x0d; 0x0e; 0x0f; 0xff; 0xff; 0xff; 0xff; 0xff; 0xff; 0xff; 0xff; 0xff;
  0xff; 0xff; 0xff; 0xff; 0xff; 0xff; 0xff; 0xff; 0xff; 0xff; 0xff; 0xff; 0xff; 0xff; 0xff; 0xff;
  0xff; 0xff; 0xff; 0xff; 0xff; 0xff; 0xff; 0xff; 0xff; 0xff; 0xff; 0xff; 0xff; 0xff; 0xff; 0xff;
  0xff; 0xff; 0xff; 0xff; 0xff; 0xff; 0xff; 0xff; 0xff; 0xff; 0xff; 0xff; 0xff; 0xff; 0xff; 0xff;
  0xff; 0xff; 0xff; 0xff; 0xff; 0xff; 0xff; 0xff; 0xff; 0xff; 0xff; 0xff; 0xff; 0xff; 0xff; 0xff;
  0xff; 0xff; 0xff; 0xff; 0xff; 0xff; 0xff; 0xff; 0xff; 0xff; 0xff; 0xff; 0xff; 0xff; 0xff; 0xff;
  0xff; 0xff; 0xff; 0xff; 0xff; 0xff; 0xff; 0xff; 0xff; 0xff; 0xff; 0xff; 0xff; 0xff; 0xff; 0xff;
  0xff; 0xff; 0xff; 0xff; 0xff; 0xff; 0xff; 0xff; 0xff; 0xff; 0xff; 0xff; 0xff; 0xff; 0xff; 0xff;
  0xff; 0xff; 0xff; 0xff; 0xff; 0xff; 0xff; 0xff; 0xff; 0xff; 0xff; 0xff; 0xff; 0xff; 0xff; 0xff;
  0xff; 0xff; 0xff; 0xff; 0xff; 0xff; 0xff; 0xff; 0xff; 0xff; 0xff; 0xff; 0xff; 0xff; 0xff; 0xff
].

(** [hexValues[x]] for a byte [x]: the table has an entry for each. *)
Definition hexValue (x : byte) : byte := nth (Z.to_nat x) hexValues 0xff.

Definition hexStartedIndex : list nat := [
  0; 2; 4; 6;
  9; 11;
  14; 16;
  19; 21;
  24; 26; 28; 30; 32; 34
]%nat.

(** [(b1 << 4) | b2] on bytes: the shift drops the bits above the eighth. *)
Definition hexToByte (x1 x2 : byte) : byte * bool :=
  let b1 := hexValue x1 in
  let b2 := hexValue x2 in
  (Z.lor (Z.shiftl b1 4 mod 256) b2,
   negb (b1 =? 0xff) && negb (b2 =? 0xff)).

(** The loop of [parse]: [i] counts the entries of [indexes] already done,
    [uid] is the array filled so far. *)
Fixpoint parse_from (s : string) (indexes : list nat) (i : nat) (uid : UUID)
  : exec (UUID * option error) :=
  match indexes with
  | [] => Ret (uid, None)
  | start :: rest =>
      x1 <- index s start ;;
      x2 <- index s (start + 1) ;;
      let '(v, ok) := hexToByte x1 x2 in
      if negb ok
      then Ret (Nil, Some (Errorf "uuid: invalid UUID string: " s))
      else parse_from s rest (S i) (upd i v uid)
  end.

Definition parse (s : string) (indexes : list nat)
  : exec (UUID * option error) :=
  parse_from s indexes 0 (repeat 0 16).

(** [a || b] with its short circuit, for operands that may panic. *)
Definition orelse (a b : exec bool) : exec bool :=
  x <- a ;; if x then Ret true else b.

(** [s[i] != c]. *)
Definition differs (s : string) (i : nat) (c : byte) : exec bool :=
  x <- index s i ;; Ret (negb (x =? c)).

Definition Parse (s : string) : exec (UUID * option error) :=
  if negb (len s =? 36)%nat
  then Ret (Nil, Some (Errorf "uuid: incorrect UUID length: " s))
  else
    bad <- orelse (differs s 8 dash) (orelse (differs s 13 dash)
             (orelse (differs s 18 dash) (differs s 23 dash))) ;;
    if bad
    then Ret (Nil, Some (errorString
           "uuid: expected dashes at positions 8, 13, 18, and 23"))
    else parse s hexStartedIndex.

(** ** Readers *)

Module io.

(** An [io.Reader] value: an object with a state of its own and a [Read]
    method. [Read st n] is a call [Read(p)] with [len(p) = n]; it gives the
    bytes it put at the front of [p], the error and the next state. The
    count Go's [Read] returns is the number of those bytes, which the
    interface bounds by [len(p)]. *)
Record Reader : Type := {
  state : Type;
  current : state;
  Read : state -> nat -> list byte * option error * state;
  Read_bound : forall st n,
    (length (fst (fst (Read st n))) <= n)%nat
}.

Definition is_nil (err : option error) : bool :=
  match err with None => true | Some _ => false end.

Definition is_EOF (err : option error) : bool :=
  match err with Some EOF => true | _ => false end.

(** The loop of [io.ReadAtLeast]:
    [for n < min && err == nil { nn, err = r.Read(buf[n:]); n += nn }]. *)
Fixpoint ReadAtLeast_loop (r : Reader) (fuel : nat) (st : state r)
    (buf : list byte) (min n : nat) (err : option error)
  : exec (list byte * nat * option error * state r) :=
  if (n <? min)%nat && is_nil err then
    match fuel with
    | O => OutOfFuel
    | S fuel' =>
        let whole := Slice 0 (length buf) (length buf) in
        p <- reslice whole n (size whole) ;;
        let '(data, err', st') := Read r st (size p) in
        ReadAtLeast_loop r fuel' st' (write_at (off p) data buf) min
          (n + length data) err'
    end
  else Ret (buf, n, err, st).

Definition ReadAtLeast (fuel : nat) (r : Reader) (buf : list byte)
    (min : nat) : exec (list byte * nat * option error * state r) :=
  if (length buf <? min)%nat
  then Ret (buf, 0%nat, Some ErrShortBuffer, current r)
  else
    '(buf, n, err, st) <- ReadAtLeast_loop r fuel (current r) buf min 0 None ;;
    if (min <=? n)%nat then Ret (buf, n, None, st)
    else if (0 <? n)%nat && is_EOF err
         then Ret (buf, n, Some ErrUnexpectedEOF, st)
         else Ret (buf, n, err, st).

Definition ReadFull (fuel : nat) (r : Reader) (buf : list byte)
  : exec (list byte * nat * option error * state r) :=
  ReadAtLeast fuel r buf (length buf).

End io.

Module bytes.

(** [bytes.Reader]: the slice it reads from and the read position. *)
Definition Reader_Read (st : list byte * nat) (n : nat)
  : list byte * option error * (list byte * nat) :=
  let '(s, i) := st in
  if (length s <=? i)%nat then ([], Some EOF, st)
  else
    let data := firstn n (skipn i s) in
    (data, None, (s, (i + length data)%nat)).

Lemma Reader_Read_bound (st : list byte * nat) (n : nat) :
  (length (fst (fst (Reader_Read st n))) <= n)%nat.
Proof.
  destruct st as [s i]. unfold Reader_Read.
  destruct (length s <=? i)%nat; cbn [fst length].
  - lia.
  - apply firstn_le_length.
Qed.

Definition NewReader (b : list byte) : io.Reader :=
  {| io.state := list byte * nat;
     io.current := (b, 0%nat);
     io.Read := Reader_Read;
     io.Read_bound := Reader_Read_bound |}.

End bytes.

(** ** The generator *)

Definition fillUUID (fuel : nat) (reader : io.Reader)
  : exec (UUID * option error * io.state reader) :=
  let uid := repeat 0 16 in
  '(uid, _, err, st) <- io.ReadFull fuel reader uid ;;
  match err with
  | Some e => Ret (Nil, Some e, st)
  | None => Ret (uid, None, st)
  end.

Definition ReaderFactory : Type := unit -> io.Reader.

Definition StaticUUID : string := "00010203-0405-4607-8809-0a0b0c0d0e0f".

Definition StaticReader : ReaderFactory := fun _ =>
  bytes.NewReader [
    0x00; 0x01; 0x02; 0x03; 0x04; 0x05; 0x06; 0x07;
    0x08; 0x09; 0x0a; 0x0b; 0x0c; 0x0d; 0x0e; 0x0f
  ].

Definition eofReader_Read (st : unit) (n : nat)
  : list byte * option error * unit :=
  ([], Some EOF, st).

Lemma eofReader_Read_bound (st : unit) (n : nat) :
  (length (fst (fst (eofReader_Read st n))) <= n)%nat.
Proof. cbn. lia. Qed.

Definition ErrorsReader : ReaderFactory := fun _ =>
  {| io.state := unit;
     io.current := tt;
     io.Read := eofReader_Read;
     io.Read_bound := eofReader_Read_bound |}.

Record V4Generator : Type := { factory : ReaderFactory }.

Definition NewV4Generator (factory : ReaderFactory) : V4Generator :=
  {| factory := factory |}.

(** [NewUUID]; the state the reader is left in comes with the result. *)
Definition NewUUID (fuel : nat) (v : V4Generator)
  : exec (UUID * option error * io.state (factory v tt)) :=
  '(uid, err, st) <- fillUUID fuel (factory v tt) ;;
  match err with
  | Some e => Ret (Nil, Some e, st)
  | None =>
      let uid := upd 6 (Z.lor (Z.land (at_ uid 6) 0x0f) 0x40) uid in
      let uid := upd 8 (Z.lor (Z.land (at_ uid 8) 0x3f) 0x80) uid in
      Ret (uid, err, st)
  end.

(** [SecureReader] hands out [crypto/rand.Reader], whose bytes the program
    does not determine: it is a reader like any other here, and [New] is
    [NewUUID] on the generator built from it. *)
Section Secure.

Variable rand_Reader : io.Reader.

Definition SecureReader : ReaderFactory := fun _ => rand_Reader.

Definition New (fuel : nat)
  : exec (UUID * option error * io.state rand_Reader) :=
  NewUUID fuel (NewV4Generator SecureReader).

End Secure.

(** What the caller of a generator sees: the pair Go returns. *)
Definition returned {A S : Type} (m : exec (A * S)) : exec A :=
  '(a, _) <- m ;; Ret a.


(** ** The canonical text form, as the specification words it *)

Module Canonical.

(** The lower-case digit for a value below sixteen: ['0' + n] or
    ['a' + (n - 10)]. *)
Definition lower_digit (n : Z) : byte :=
  if n <? 10 then 48 + n else 87 + n.

(** Two lower-case digits per byte, high half first. *)
Fixpoint hex_bytes (src : list byte) : list byte :=
  match src with
  | [] => []
  | v :: rest => lower_digit (v / 16) :: lower_digit (v mod 16) :: hex_bytes rest
  end.

Definition hex_string (src : list byte) : string :=
  string_of_bytes (hex_bytes src).

(** The 8-4-4-4-12 layout of section 4.3. *)
Definition layout (u : UUID) : string :=
  (hex_string (sub 0 4 u) ++ "-" ++ hex_string (sub 4 6 u) ++ "-" ++
   hex_string (sub 6 8 u) ++ "-" ++ hex_string (sub 8 10 u) ++ "-" ++
   hex_string (sub 10 16 u))%string.

Definition is_lower_hex (c : ascii) : bool :=
  let x := code c in
  ((48 <=? x) && (x <=? 57)) || ((97 <=? x) && (x <=? 102)).

(** [n] characters of [[0-9a-f]] at the front of [s]; gives the rest. *)
Fixpoint lower_hex_run (n : nat) (s : string) : option string :=
  match n, s with
  | O, _ => Some s
  | S n', String c rest =>
      if is_lower_hex c then lower_hex_run n' rest else None
  | S _, EmptyString => None
  end.

Definition hyphen (s : string) : option string :=
  match s with
  | String "-" rest => Some rest
  | _ => None
  end.

Definition and_then (r : option string) (f : string -> option string)
  : option string :=
  match r with
  | Some s => f s
  | None => None
  end.

(** [^[0-9a-f]{8}-[0-9a-f]{4}-[0-9a-f]{4}-[0-9a-f]{4}-[0-9a-f]{12}$] *)
Definition matches_regex (s : string) : bool :=
  let r := lower_hex_run 8 s in
  let r := and_then r hyphen in
  let r := and_then r (lower_hex_run 4) in
  let r := and_then r hyphen in
  let r := and_then r (lower_hex_run 4) in
  let r := and_then r hyphen in
  let r := and_then r (lower_hex_run 4) in
  let r := and_then r hyphen in
  let r := and_then r (lower_hex_run 12) in
  match r with
  | Some EmptyString => true
  | _ => false
  end.

End Canonical.

Export Canonical.

(** ** The format [Parse] accepts, as the specification words it *)

Module Format.

(** A hexadecimal digit of either case, [0-9a-fA-F]. *)
Definition is_hex_digit (c : ascii) : bool :=
  let x := code c in
  ((48 <=? x) && (x <=? 57)) || ((97 <=? x) && (x <=? 102))
  || ((65 <=? x) && (x <=? 70)).

Definition digit_value (c : ascii) : Z :=
  let x := code c in
  if x <=? 57 then x - 48 else if x <=? 70 then x - 55 else x - 87.

Definition is_lower_letter (c : ascii) : bool :=
  let x := code c in (97 <=? x) && (x <=? 102).

Definition is_upper_letter (c : ascii) : bool :=
  let x := code c in (65 <=? x) && (x <=? 70).

(** The hex letters in the other case; every other character as it is. *)
Definition upper_hex (c : ascii) : ascii :=
  if is_lower_letter c then char (code c - 32) else c.

Definition lower_hex (c : ascii) : ascii :=
  if is_upper_letter c then char (code c + 32) else c.

Fixpoint lower_hex_string (s : string) : string :=
  match s with
  | EmptyString => EmptyString
  | String c rest => String (lower_hex c) (lower_hex_string rest)
  end.

(** [s'] is [s] with some (any, all or none) of its letters a-f replaced by
    their upper-case forms. *)
Inductive raised : string -> string -> Prop :=
| raised_nil : raised EmptyString EmptyString
| raised_keep (c : ascii) (s s' : string) :
    raised s s' -> raised (String c s) (String c s')
| raised_upper (c : ascii) (s s' : string) :
    is_lower_letter c = true ->
    raised s s' -> raised (String c s) (String (upper_hex c) s').

Definition separators : list nat := [8; 13; 18; 23]%nat.

Definition dash_at (s : string) (i : nat) : bool :=
  match String.get i s with
  | Some c => Ascii.eqb c "-"
  | None => false
  end.

Definition hex_at (s : string) (i : nat) : bool :=
  match String.get i s with
  | Some c => is_hex_digit c
  | None => false
  end.

Definition value_at (s : string) (i : nat) : Z :=
  match String.get i s with
  | Some c => digit_value c
  | None => 0
  end.

(** The pair of digits that starts at [start], and the byte it denotes. *)
Definition pair_ok (s : string) (start : nat) : bool :=
  hex_at s start && hex_at s (start + 1).

Definition pair_value (s : string) (start : nat) : byte :=
  16 * value_at s start + value_at s (start + 1).

Definition bad_length (s : string) : bool := negb (String.length s =? 36)%nat.

Definition missing_separator (s : string) : bool :=
  negb (forallb (dash_at s) separators).

Definition invalid_hex_digit (s : string) : bool :=
  negb (forallb (pair_ok s) hexStartedIndex).

Definition decode (s : string) : UUID := map (pair_value s) hexStartedIndex.

(** The three errors of [Parse]. *)
Definition ErrLength (s : string) : error :=
  errorString ("uuid: incorrect UUID length: " ++ s).

Definition ErrDashes : error :=
  errorString "uuid: expected dashes at positions 8, 13, 18, and 23".

Definition ErrDigit (s : string) : error :=
  errorString ("uuid: invalid UUID string: " ++ s).

(** Section 4.4: the three checks in their order, then the value. *)
Definition Parse_spec (s : string) : UUID * option error :=
  if bad_length s then (Nil, Some (ErrLength s))
  else if missing_separator s then (Nil, Some ErrDashes)
  else if invalid_hex_digit s then (Nil, Some (ErrDigit s))
  else (decode s, None).

(** The 32 positions that are not separators. *)
Definition digit_position (i : nat) : bool :=
  (i <? 36)%nat && negb (existsb (Nat.eqb i) separators).

End Format.

Export Format.

(** Two calls of [NewUUID] on one generator, one after the other. *)
Definition NewUUID_twice (fuel : nat) (v : V4Generator)
  : exec ((UUID * option error) * (UUID * option error)) :=
  r1 <- returned (NewUUID fuel v) ;;
  r2 <- returned (NewUUID fuel v) ;;
  Ret (r1, r2).

(** A reader makes progress when a [Read] into a non-empty slice gives a
    byte or an error; [io.Reader] discourages any other. *)
Definition progresses (r : io.Reader) : Prop :=
  forall (st : io.state r) (k : nat),
    (0 < k)%nat ->
    fst (fst (io.Read r st k)) <> [] \/ snd (fst (io.Read r st k)) <> None.

(** The digits whose two top bits are 10: 8, 9, a, b and A, B. *)
Definition variant_digit (c : ascii) : bool :=
  let x := code c in
  (x =? 56) || (x =? 57) || (x =? 97) || (x =? 98) || (x =? 65) || (x =? 66).

(** The 36 bytes of the canonical form, before they become a string. *)
Definition layout_bytes (u : UUID) : list byte :=
  hex_bytes (sub 0 4 u) ++ [dash] ++ hex_bytes (sub 4 6 u) ++ [dash] ++
  hex_bytes (sub 6 8 u) ++ [dash] ++ hex_bytes (sub 8 10 u) ++ [dash] ++
  hex_bytes (sub 10 16 u).

(** ** Exhaustive checks over bytes and characters *)

Lemma all_bytes (P : byte -> bool) :
  forallb P (map Z.of_nat (seq 0 256)) = true ->
  forall b, is_byte b = true -> P b = true.
Proof.
  intros Hall b Hb. rewrite forallb_forall in Hall. apply Hall.
  unfold is_byte in Hb. apply andb_true_iff in Hb as [Hlo Hhi].
  apply Z.leb_le in Hlo. apply Z.ltb_lt in Hhi.
  rewrite <- (Z2Nat.id b) by assumption.
  apply in_map, in_seq. lia.
Qed.

Lemma all_chars (P : ascii -> bool) :
  forallb P (map (fun n => ascii_of_nat n) (seq 0 256)) = true ->
  forall c, P c = true.
Proof.
  intros Hall c. rewrite forallb_forall in Hall. apply Hall.
  rewrite <- (ascii_nat_embedding c).
  apply in_map, in_seq. pose proof (nat_ascii_bounded c). lia.
Qed.

Lemma code_is_byte (c : ascii) : is_byte (code c) = true.
Proof. revert c. apply all_chars. vm_compute. reflexivity. Qed.

Lemma char_code (c : ascii) : char (code c) = c.
Proof.
  unfold char, code. rewrite N2Z.id. apply ascii_N_embedding.
Qed.

(** The two lookups of [hex.Encode] stay inside [hextable] and give the
    lower-case digits of the two halves of the byte. *)
Lemma hextable_digits (v : byte) :
  is_byte v = true ->
  index hex.hextable (Z.to_nat (Z.shiftr v 4)) = Ret (lower_digit (v / 16)) /\
  index hex.hextable (Z.to_nat (Z.land v 15)) = Ret (lower_digit (v mod 16)).
Proof.
  intros Hv.
  pose (P := fun v : byte =>
    match index hex.hextable (Z.to_nat (Z.shiftr v 4)),
          index hex.hextable (Z.to_nat (Z.land v 15)) with
    | Ret a, Ret b =>
        (a =? lower_digit (v / 16)) && (b =? lower_digit (v mod 16))
    | _, _ => false
    end).
  assert (HP : P v = true) by (apply all_bytes; [vm_compute; reflexivity | exact Hv]).
  unfold P in HP.
  destruct (index hex.hextable (Z.to_nat (Z.shiftr v 4))); try discriminate.
  destruct (index hex.hextable (Z.to_nat (Z.land v 15))); try discriminate.
  apply andb_true_iff in HP as [Ha Hb].
  apply Z.eqb_eq in Ha, Hb. subst. split; reflexivity.
Qed.

Lemma length_upd {A : Type} (i : nat) (v : A) (l : list A) :
  length (upd i v l) = length l.
Proof.
  revert i; induction l as [|x l IH]; intros [|i]; cbn; auto.
Qed.

Lemma length_write_at (data mem : list byte) (pos : nat) :
  length (write_at pos data mem) = length mem.
Proof.
  revert pos mem; induction data as [|b data IH]; intros pos mem; cbn.
  - reflexivity.
  - rewrite IH. apply length_upd.
Qed.

(** [hex.Encode] neither panics nor leaves its window when the window has
    room for two characters per byte; it writes [hex_bytes src]. *)
Lemma Encode_from_spec (src : list byte) :
  forall (j : nat) (dst : slice) (mem : list byte),
    forallb is_byte src = true ->
    (j + 2 * length src <= size dst)%nat ->
    hex.Encode_from j src dst mem
    = Ret (write_at (off dst + j) (hex_bytes src) mem).
Proof.
  induction src as [|v src IH]; intros j dst mem Hsrc Hroom.
  - reflexivity.
  - cbn [forallb] in Hsrc. apply andb_true_iff in Hsrc as [Hv Hsrc].
    cbn [length] in Hroom.
    destruct (hextable_digits v Hv) as [Hhi Hlo].
    cbn [hex.Encode_from hex_bytes write_at].
    rewrite Hhi. cbn [bind]. unfold store.
    replace (j <? size dst)%nat with true by (symmetry; apply Nat.ltb_lt; lia).
    cbn [bind]. rewrite Hlo. cbn [bind].
    replace (j + 1 <? size dst)%nat with true by (symmetry; apply Nat.ltb_lt; lia).
    cbn [bind]. rewrite IH by (assumption || lia).
    do 3 f_equal; lia.
Qed.

Ltac explode_uuid u H :=
  let Hlen := fresh "Hlen" in
  let Hbytes := fresh "Hbytes" in
  unfold wf_uuid in H; apply andb_true_iff in H as [Hlen Hbytes];
  apply Nat.eqb_eq in Hlen;
  do 16 (destruct u as [|?b u]; [discriminate Hlen|]);
  destruct u; [clear Hlen|discriminate Hlen];
  cbn [forallb] in Hbytes;
  repeat (let Hb := fresh "Hb" in apply andb_true_iff in Hbytes as [Hb Hbytes]);
  clear Hbytes.

Lemma lower_digit_is_lower_hex (v : byte) :
  is_byte v = true ->
  is_lower_hex (char (lower_digit (v / 16))) = true /\
  is_lower_hex (char (lower_digit (v mod 16))) = true.
Proof.
  intros Hv.
  apply andb_true_iff.
  revert v Hv.
  apply (all_bytes (fun v => is_lower_hex (char (lower_digit (v / 16))) &&
                              is_lower_hex (char (lower_digit (v mod 16))))).
  vm_compute. reflexivity.
Qed.

Ltac bytes_side :=
  solve [ cbn [forallb];
          repeat match goal with
                 | H : is_byte ?v = true |- context [is_byte ?v] => rewrite H
                 end;
          reflexivity
        | cbn [length size]; lia ].

Lemma String_layout (u : UUID) :
  wf_uuid u = true -> String_ u = Ret (layout u).
Proof.
  intros Hwf. explode_uuid u Hwf.
  unfold String_, encodeHex, hex.Encode.
  cbn [sub firstn skipn size].
  rewrite Encode_from_spec by bytes_side.
  cbn [bind store size Nat.ltb Nat.leb reslice cap andb off Nat.sub Nat.add].
  rewrite Encode_from_spec by bytes_side.
  cbn [bind store size Nat.ltb Nat.leb reslice cap andb off Nat.sub Nat.add].
  rewrite Encode_from_spec by bytes_side.
  cbn [bind store size Nat.ltb Nat.leb reslice cap andb off Nat.sub Nat.add].
  rewrite Encode_from_spec by bytes_side.
  cbn [bind store size Nat.ltb Nat.leb reslice cap andb off Nat.sub Nat.add].
  rewrite Encode_from_spec by bytes_side.
  cbn [bind].
  reflexivity.
Qed.

Lemma string_of_bytes_app (a b : list byte) :
  string_of_bytes (a ++ b) = (string_of_bytes a ++ string_of_bytes b)%string.
Proof. induction a as [|x a IH]; cbn; [|rewrite IH]; reflexivity. Qed.

Lemma append_empty (s : string) : (s ++ "")%string = s.
Proof. induction s as [|c s IH]; cbn; [|rewrite IH]; reflexivity. Qed.

Lemma lower_hex_run_hex (src : list byte) (rest : string) (n : nat) :
  forallb is_byte src = true ->
  n = (2 * length src)%nat ->
  lower_hex_run n (hex_string src ++ rest) = Some rest.
Proof.
  intros Hsrc ->. induction src as [|v src IH].
  - reflexivity.
  - cbn [forallb] in Hsrc. apply andb_true_iff in Hsrc as [Hv Hsrc].
    destruct (lower_digit_is_lower_hex v Hv) as [Hhi Hlo].
    replace (2 * length (v :: src))%nat with (S (S (2 * length src)))
      by (cbn [length]; lia).
    unfold hex_string in *.
    cbn [hex_bytes string_of_bytes String.append lower_hex_run].
    rewrite Hhi, Hlo. apply IH, Hsrc.
Qed.

Lemma length_hex_string (src : list byte) :
  String.length (hex_string src) = (2 * length src)%nat.
Proof.
  unfold hex_string. induction src as [|v src IH]; cbn [hex_bytes string_of_bytes String.length length].
  - reflexivity.
  - rewrite IH. lia.
Qed.

Lemma layout_regex (u : UUID) :
  wf_uuid u = true -> matches_regex (layout u) = true.
Proof.
  intros Hwf. explode_uuid u Hwf.
  unfold layout, matches_regex. cbn [sub firstn skipn].
  rewrite <- (append_empty (hex_string [b9; b10; b11; b12; b13; b14])).
  repeat (rewrite lower_hex_run_hex by (bytes_side || reflexivity);
          cbn [and_then hyphen String.append]).
  reflexivity.
Qed.

(** ** [Parse] against the format *)

Lemma get_in_range (s : string) (i : nat) :
  (i < String.length s)%nat -> exists c, String.get i s = Some c.
Proof.
  revert i; induction s as [|c s IH]; intros i Hi; cbn in Hi.
  - lia.
  - destruct i as [|i]; cbn.
    + eauto.
    + apply IH. lia.
Qed.

Lemma hexValue_spec (c : ascii) :
  hexValue (code c) = if is_hex_digit c then digit_value c else 0xff.
Proof.
  apply Z.eqb_eq. revert c.
  apply (all_chars (fun c =>
    hexValue (code c) =? (if is_hex_digit c then digit_value c else 0xff))).
  vm_compute. reflexivity.
Qed.

Lemma digit_value_range (c : ascii) :
  is_hex_digit c = true -> 0 <= digit_value c < 16.
Proof.
  intros Hc.
  assert (H : (negb (is_hex_digit c)
               || ((0 <=? digit_value c) && (digit_value c <? 16))) = true).
  { clear Hc. revert c. apply all_chars. vm_compute. reflexivity. }
  rewrite Hc in H. cbn in H. apply andb_true_iff in H as [H1 H2].
  apply Z.leb_le in H1. apply Z.ltb_lt in H2. lia.
Qed.

(** [(b1 << 4) | b2] joins two half-bytes. *)
Lemma join_halves (h1 h2 : Z) :
  0 <= h1 < 16 -> 0 <= h2 < 16 ->
  Z.lor (Z.shiftl h1 4 mod 256) h2 = 16 * h1 + h2.
Proof.
  intros H1 H2.
  assert (Hb : is_byte (16 * h1 + h2) = true).
  { unfold is_byte. apply andb_true_iff. split;
      [apply Z.leb_le | apply Z.ltb_lt]; lia. }
  pose proof (all_bytes
    (fun b => Z.lor (Z.shiftl (b / 16) 4 mod 256) (b mod 16) =? b)
    ltac:(vm_compute; reflexivity) _ Hb) as H.
  apply Z.eqb_eq in H.
  replace ((16 * h1 + h2) / 16) with h1 in H
    by (apply (Z.div_unique _ 16 h1 h2); lia).
  replace ((16 * h1 + h2) mod 16) with h2 in H
    by (apply (Z.mod_unique _ 16 h1 h2); lia).
  exact H.
Qed.

Lemma hexToByte_spec (c1 c2 : ascii) :
  snd (hexToByte (code c1) (code c2)) = is_hex_digit c1 && is_hex_digit c2 /\
  (is_hex_digit c1 && is_hex_digit c2 = true ->
   fst (hexToByte (code c1) (code c2)) = 16 * digit_value c1 + digit_value c2).
Proof.
  unfold hexToByte. cbn [fst snd]. rewrite !hexValue_spec. split.
  - destruct (is_hex_digit c1) eqn:H1, (is_hex_digit c2) eqn:H2; cbn [andb negb].
    + pose proof (digit_value_range c1 H1). pose proof (digit_value_range c2 H2).
      replace (digit_value c1 =? 255) with false by (symmetry; apply Z.eqb_neq; lia).
      replace (digit_value c2 =? 255) with false by (symmetry; apply Z.eqb_neq; lia).
      reflexivity.
    + rewrite andb_false_r. reflexivity.
    + reflexivity.
    + reflexivity.
  - intros H. apply andb_true_iff in H as [H1 H2]. rewrite H1, H2.
    apply join_halves; apply digit_value_range; assumption.
Qed.

(** The loop of [parse]: it stops at the first pair with a character that
    is no digit, and otherwise fills one byte per index. *)
Lemma parse_from_spec (s : string) (indexes : list nat) :
  forall (i : nat) (uid : UUID),
    (forall start, In start indexes -> (start + 1 < String.length s)%nat) ->
    parse_from s indexes i uid =
    Ret (if forallb (pair_ok s) indexes
         then (write_at i (map (pair_value s) indexes) uid, None)
         else (Nil, Some (ErrDigit s))).
Proof.
  induction indexes as [|start rest IH]; intros i uid Hrange.
  - reflexivity.
  - assert (Hs : (start + 1 < String.length s)%nat)
      by (apply Hrange; left; reflexivity).
    destruct (get_in_range s start) as [c1 Hc1]; [lia|].
    destruct (get_in_range s (start + 1)) as [c2 Hc2]; [lia|].
    cbn [parse_from forallb map write_at].
    unfold index, pair_ok, hex_at, pair_value, value_at.
    rewrite Hc1, Hc2. cbn [bind].
    destruct (hexToByte_spec c1 c2) as [Hok Hval].
    destruct (hexToByte (code c1) (code c2)) as [v ok]. cbn [fst snd] in *.
    subst ok.
    destruct (is_hex_digit c1 && is_hex_digit c2) eqn:Hpair; cbn [negb andb].
    + rewrite IH by (intros; apply Hrange; right; assumption).
      rewrite Hval by reflexivity. reflexivity.
    + reflexivity.
Qed.

Lemma differs_dash (s : string) (i : nat) :
  (i < String.length s)%nat ->
  differs s i dash = Ret (negb (dash_at s i)).
Proof.
  intros Hi. destruct (get_in_range s i Hi) as [c Hc].
  unfold differs, index, dash_at. rewrite Hc. cbn [bind]. do 2 f_equal.
  clear Hc. apply eqb_prop. revert c. apply all_chars.
  vm_compute. reflexivity.
Qed.

(** [Parse] returns, and returns what section 4.4 says. *)
Lemma Parse_refines (s : string) : Parse s = Ret (Parse_spec s).
Proof.
  unfold Parse, Parse_spec, bad_length, len.
  destruct (String.length s =? 36)%nat eqn:Hlen; cbn [negb].
  - apply Nat.eqb_eq in Hlen.
    rewrite !differs_dash by lia.
    unfold missing_separator, separators, orelse. cbn [forallb bind].
    destruct (dash_at s 8); cbn [negb andb bind]; [|reflexivity].
    destruct (dash_at s 13); cbn [negb andb bind]; [|reflexivity].
    destruct (dash_at s 18); cbn [negb andb bind]; [|reflexivity].
    destruct (dash_at s 23); cbn [negb andb bind]; [|reflexivity].
    unfold parse. rewrite parse_from_spec.
    + unfold invalid_hex_digit.
      destruct (forallb (pair_ok s) hexStartedIndex); cbn [negb];
        reflexivity.
    + intros start Hin. rewrite Hlen.
      unfold hexStartedIndex in Hin. cbn [In] in Hin.
      repeat (destruct Hin as [<- | Hin]; [lia|]). contradiction.
  - reflexivity.
Qed.

(** ** Encoding *)

(** C5: [String] returns for every identifier, with the 36 characters of
    the canonical form: it matches the regular expression of the format
    (lower-case digits in groups of 8, 4, 4, 4 and 12), the bytes [0:4],
    [4:6], [6:8], [8:10] and [10:16] are hex-encoded at positions [0:8],
    [9:13], [14:18], [19:23] and [24:36], and positions 8, 13, 18 and 23
    hold a hyphen. *)
Theorem String_total_canonical (u : UUID) :
  wf_uuid u = true ->
  exists s : string,
    String_ u = Ret s /\
    String.length s = 36%nat /\
    matches_regex s = true /\
    substring 0 8 s = hex_string (sub 0 4 u) /\
    substring 9 4 s = hex_string (sub 4 6 u) /\
    substring 14 4 s = hex_string (sub 6 8 u) /\
    substring 19 4 s = hex_string (sub 8 10 u) /\
    substring 24 12 s = hex_string (sub 10 16 u) /\
    (forall i, In i separators -> String.get i s = Some "-"%char).
Proof.
  intros Hwf. exists (layout u).
  split; [apply String_layout, Hwf|].
  split; [|split; [apply layout_regex, Hwf|]].
  - explode_uuid u Hwf. reflexivity.
  - explode_uuid u Hwf. repeat (split; [reflexivity|]).
    intros i Hi. unfold separators in Hi. cbn [In] in Hi.
    repeat (destruct Hi as [<- | Hi]; [reflexivity|]). contradiction.
Qed.

Lemma String_total_canonical_witness :
  exists s : string,
    String_ [0x12; 0x34; 0x56; 0x78; 0x9a; 0xbc; 0xde; 0xf0;
             0xff; 0xee; 0xdd; 0xcc; 0xbb; 0xaa; 0x99; 0x00] = Ret s /\
    String.length s = 36%nat /\
    matches_regex s = true /\
    substring 0 8 s = "12345678"%string /\
    substring 9 4 s = "9abc"%string /\
    substring 14 4 s = "def0"%string /\
    substring 19 4 s = "ffee"%string /\
    substring 24 12 s = "ddccbbaa9900"%string /\
    (forall i, In i separators -> String.get i s = Some "-"%char).
Proof.
  apply (String_total_canonical
           [0x12; 0x34; 0x56; 0x78; 0x9a; 0xbc; 0xde; 0xf0;
            0xff; 0xee; 0xdd; 0xcc; 0xbb; 0xaa; 0x99; 0x00]).
  reflexivity.
Defined.

(** ** The round trip *)

Lemma digits_roundtrip (b : byte) :
  is_byte b = true ->
  is_hex_digit (char (lower_digit (b / 16))) = true /\
  is_hex_digit (char (lower_digit (b mod 16))) = true /\
  16 * digit_value (char (lower_digit (b / 16)))
  + digit_value (char (lower_digit (b mod 16))) = b.
Proof.
  intros Hb.
  pose proof (all_bytes (fun b =>
    is_hex_digit (char (lower_digit (b / 16)))
    && is_hex_digit (char (lower_digit (b mod 16)))
    && (16 * digit_value (char (lower_digit (b / 16)))
        + digit_value (char (lower_digit (b mod 16))) =? b))
    ltac:(vm_compute; reflexivity) b Hb) as H.
  apply andb_true_iff in H as [H H3]. apply andb_true_iff in H as [H1 H2].
  apply Z.eqb_eq in H3. auto.
Qed.

Lemma Parse_spec_layout (u : UUID) :
  wf_uuid u = true -> Parse_spec (layout u) = (u, None).
Proof.
  intros Hwf. explode_uuid u Hwf.
  repeat match goal with
  | H : is_byte ?v = true |- _ =>
      let H1 := fresh "Hhi" in let H2 := fresh "Hlo" in let H3 := fresh "Hval" in
      destruct (digits_roundtrip v H) as (H1 & H2 & H3); clear H
  end.
  unfold Parse_spec, bad_length, missing_separator, invalid_hex_digit, decode.
  cbv - [lower_digit Z.div Z.modulo char is_hex_digit digit_value Z.mul Z.add].
  repeat match goal with
  | H : is_hex_digit _ = true |- _ => rewrite H; clear H
  end.
  cbv beta iota.
  repeat match goal with
  | H : _ + _ = _ |- _ => rewrite H; clear H
  end.
  reflexivity.
Qed.

(** C1: decoding the text of an identifier gives the identifier back, with
    no error; [String] itself returns for every identifier. *)
Theorem Parse_String_roundtrip (u : UUID) :
  wf_uuid u = true ->
  exists s : string, String_ u = Ret s /\ Parse s = Ret (u, None).
Proof.
  intros Hwf. exists (layout u). split.
  - apply String_layout, Hwf.
  - rewrite Parse_refines. f_equal. apply Parse_spec_layout, Hwf.
Qed.

Lemma Parse_String_roundtrip_witness :
  exists s : string, String_ Nil = Ret s /\ Parse s = Ret (Nil, None).
Proof. apply (Parse_String_roundtrip Nil). reflexivity. Defined.

(** ** Decoding: failures *)

Lemma dash_at_true (s : string) (i : nat) :
  dash_at s i = true <-> String.get i s = Some "-"%char.
Proof.
  unfold dash_at. destruct (String.get i s) as [c|].
  - rewrite Ascii.eqb_eq. split; congruence.
  - split; discriminate.
Qed.

Lemma missing_separator_true (s : string) :
  (exists i, In i separators /\ String.get i s <> Some "-"%char) ->
  missing_separator s = true.
Proof.
  intros (i & Hin & Hne). unfold missing_separator.
  destruct (forallb (dash_at s) separators) eqn:Hall; [|reflexivity].
  rewrite forallb_forall in Hall. apply Hall, dash_at_true in Hin.
  contradiction.
Qed.

Lemma missing_separator_false (s : string) :
  (forall i, In i separators -> String.get i s = Some "-"%char) ->
  missing_separator s = false.
Proof.
  intros Hall. unfold missing_separator. apply negb_false_iff.
  apply forallb_forall. intros i Hi. apply dash_at_true, Hall, Hi.
Qed.

Lemma invalid_hex_digit_true (s : string) :
  (exists start c,
     In start hexStartedIndex /\
     (String.get start s = Some c \/ String.get (start + 1) s = Some c) /\
     is_hex_digit c = false) ->
  invalid_hex_digit s = true.
Proof.
  intros (start & c & Hin & Hget & Hc). unfold invalid_hex_digit.
  destruct (forallb (pair_ok s) hexStartedIndex) eqn:Hall; [|reflexivity].
  rewrite forallb_forall in Hall. apply Hall in Hin.
  unfold pair_ok, hex_at in Hin. apply andb_true_iff in Hin as [H1 H2].
  destruct Hget as [Hget | Hget]; rewrite Hget in *; congruence.
Qed.

(** A failure never comes with a partly filled identifier. *)
Lemma Parse_spec_error_Nil (s : string) (u : UUID) (e : error) :
  Parse_spec s = (u, Some e) -> u = Nil.
Proof.
  unfold Parse_spec.
  destruct (bad_length s); [congruence|].
  destruct (missing_separator s); [congruence|].
  destruct (invalid_hex_digit s); congruence.
Qed.

(** C3: the checks of [Parse] in their order. A length other than 36 gives
    the length error whatever else is wrong; with 36 characters a missing
    hyphen at 8, 13, 18 or 23 gives the separator error; with the hyphens
    in place a character that is no hex digit in one of the sixteen pairs
    gives the digit error. The three errors have different messages, and
    every error comes with the nil identifier. *)
Theorem Parse_checks_in_order (s : string) :
  (String.length s <> 36%nat ->
   Parse s = Ret (Nil, Some (ErrLength s))) /\
  (String.length s = 36%nat ->
   (exists i, In i [8; 13; 18; 23]%nat /\ String.get i s <> Some "-"%char) ->
   Parse s = Ret (Nil, Some ErrDashes)) /\
  (String.length s = 36%nat ->
   (forall i, In i [8; 13; 18; 23]%nat -> String.get i s = Some "-"%char) ->
   (exists start c,
      In start [0; 2; 4; 6; 9; 11; 14; 16; 19; 21; 24; 26; 28; 30; 32; 34]%nat /\
      (String.get start s = Some c \/ String.get (start + 1) s = Some c) /\
      is_hex_digit c = false) ->
   Parse s = Ret (Nil, Some (ErrDigit s))) /\
  (forall u e, Parse s = Ret (u, Some e) -> u = Nil) /\
  (forall s1 s2 : string,
     Error (ErrLength s1) <> Error ErrDashes /\
     Error (ErrLength s1) <> Error (ErrDigit s2) /\
     Error ErrDashes <> Error (ErrDigit s2)).
Proof.
  rewrite Parse_refines. unfold Parse_spec, bad_length.
  split; [|split; [|split; [|split]]].
  - intros Hlen. apply Nat.eqb_neq in Hlen. rewrite Hlen. reflexivity.
  - intros Hlen Hsep. rewrite Hlen. cbn [Nat.eqb negb].
    rewrite missing_separator_true by exact Hsep. reflexivity.
  - intros Hlen Hsep Hdigit. rewrite Hlen. cbn [Nat.eqb negb].
    rewrite missing_separator_false by exact Hsep.
    rewrite invalid_hex_digit_true by exact Hdigit. reflexivity.
  - intros u e H. injection H as H. revert H.
    apply (Parse_spec_error_Nil s u e).
  - intros s1 s2. cbn. repeat split; discriminate.
Qed.

Lemma Parse_checks_in_order_witness :
  Parse "12345678-1234-1234-1234-12345678901g0"
  = Ret (Nil, Some (ErrLength "12345678-1234-1234-1234-12345678901g0")) /\
  Parse "12345678-1234+1234-1234-12345678901g" = Ret (Nil, Some ErrDashes) /\
  Parse "12345678-1234-1234-1234-12345678901g"
  = Ret (Nil, Some (ErrDigit "12345678-1234-1234-1234-12345678901g")).
Proof.
  split; [|split].
  - apply (Parse_checks_in_order "12345678-1234-1234-1234-12345678901g0").
    cbn. discriminate.
  - apply (Parse_checks_in_order "12345678-1234+1234-1234-12345678901g").
    + reflexivity.
    + exists 13%nat. split; [cbn; tauto | cbn; discriminate].
  - apply (Parse_checks_in_order "12345678-1234-1234-1234-12345678901g").
    + reflexivity.
    + intros i Hi. cbn [In] in Hi.
      repeat (destruct Hi as [<- | Hi]; [reflexivity|]). contradiction.
    + exists 34%nat, "g"%char. split; [cbn; tauto|].
      split; [right; reflexivity | reflexivity].
Defined.

(** ** Decoding: successes *)

Lemma pair_value_is_byte (s : string) (start : nat) :
  pair_ok s start = true -> is_byte (pair_value s start) = true.
Proof.
  unfold pair_ok, hex_at, pair_value, value_at. intros H.
  apply andb_true_iff in H as [H1 H2].
  destruct (String.get start s) as [c1|]; [|discriminate].
  destruct (String.get (start + 1) s) as [c2|]; [|discriminate].
  pose proof (digit_value_range c1 H1). pose proof (digit_value_range c2 H2).
  unfold is_byte. apply andb_true_iff.
  split; [apply Z.leb_le | apply Z.ltb_lt]; lia.
Qed.

Lemma decode_wf (s : string) :
  invalid_hex_digit s = false -> wf_uuid (decode s) = true.
Proof.
  unfold invalid_hex_digit, decode, wf_uuid. intros H.
  apply negb_false_iff in H. rewrite forallb_forall in H.
  apply andb_true_iff. split; [reflexivity|].
  apply forallb_forall. intros v Hv. apply in_map_iff in Hv as (start & <- & Hin).
  apply pair_value_is_byte, H, Hin.
Qed.

(** The identifier [Parse] returns is an array of sixteen bytes. *)
Lemma Parse_spec_wf (s : string) : wf_uuid (fst (Parse_spec s)) = true.
Proof.
  unfold Parse_spec.
  destruct (bad_length s); [reflexivity|].
  destruct (missing_separator s); [reflexivity|].
  destruct (invalid_hex_digit s) eqn:H; [reflexivity|].
  apply decode_wf, H.
Qed.

Lemma digits_everywhere (s : string) :
  (forall i, digit_position i = true ->
             exists c, String.get i s = Some c /\ is_hex_digit c = true) ->
  invalid_hex_digit s = false.
Proof.
  intros Hdigits. unfold invalid_hex_digit. apply negb_false_iff.
  apply forallb_forall. intros start Hin.
  assert (Hpos : digit_position start = true /\
                 digit_position (start + 1) = true).
  { unfold hexStartedIndex in Hin. cbn [In] in Hin.
    repeat (destruct Hin as [<- | Hin]; [split; reflexivity|]).
    contradiction. }
  destruct Hpos as [H1 H2].
  destruct (Hdigits _ H1) as (c1 & Hc1 & Hd1).
  destruct (Hdigits _ H2) as (c2 & Hc2 & Hd2).
  unfold pair_ok, hex_at. rewrite Hc1, Hc2, Hd1, Hd2. reflexivity.
Qed.

Lemma Parse_spec_accepts (s : string) :
  String.length s = 36%nat ->
  (forall i, In i separators -> String.get i s = Some "-"%char) ->
  (forall i, digit_position i = true ->
             exists c, String.get i s = Some c /\ is_hex_digit c = true) ->
  Parse_spec s = (decode s, None).
Proof.
  intros Hlen Hsep Hdigits. unfold Parse_spec, bad_length.
  rewrite Hlen. cbn [Nat.eqb negb].
  rewrite missing_separator_false by exact Hsep.
  rewrite digits_everywhere by exact Hdigits. reflexivity.
Qed.

(** C6: a string of 36 characters with hyphens at 8, 13, 18 and 23 and hex
    digits of either case at the 32 other positions decodes with no error,
    to sixteen bytes each made of its two digits; nothing is asked of the
    version and variant bits, and bytes 6 and 8 of a decoded identifier can
    be any bytes at all. *)
Theorem Parse_ignores_version (s : string) :
  (String.length s = 36%nat ->
   (forall i, In i [8; 13; 18; 23]%nat -> String.get i s = Some "-"%char) ->
   (forall i, digit_position i = true ->
              exists c, String.get i s = Some c /\ is_hex_digit c = true) ->
   Parse s = Ret (decode s, None) /\ wf_uuid (decode s) = true) /\
  (forall b6 b8 : byte, is_byte b6 = true -> is_byte b8 = true ->
   exists (t : string) (u : UUID),
     Parse t = Ret (u, None) /\ at_ u 6 = b6 /\ at_ u 8 = b8).
Proof.
  split.
  - intros Hlen Hsep Hdigits. rewrite Parse_refines. split.
    + f_equal. apply Parse_spec_accepts; assumption.
    + apply decode_wf, digits_everywhere, Hdigits.
  - intros b6 b8 H6 H8.
    pose (u := upd 8 b8 (upd 6 b6 Nil)).
    assert (Hwf : wf_uuid u = true).
    { unfold u, wf_uuid. cbn. rewrite H6, H8. reflexivity. }
    exists (layout u), u. split; [|split; reflexivity].
    rewrite Parse_refines. f_equal. apply Parse_spec_layout, Hwf.
Qed.

Lemma Parse_ignores_version_witness :
  (Parse "FFFFffff-0123-3abc-7DEF-456789aBcDeF"
   = Ret ([0xff; 0xff; 0xff; 0xff; 0x01; 0x23; 0x3a; 0xbc;
           0x7d; 0xef; 0x45; 0x67; 0x89; 0xab; 0xcd; 0xef], None) /\
   IsV4 [0xff; 0xff; 0xff; 0xff; 0x01; 0x23; 0x3a; 0xbc;
         0x7d; 0xef; 0x45; 0x67; 0x89; 0xab; 0xcd; 0xef] = false) /\
  exists (t : string) (u : UUID),
    Parse t = Ret (u, None) /\ at_ u 6 = 0x30 /\ at_ u 8 = 0x70.
Proof.
  split; [split|].
  - apply (Parse_ignores_version "FFFFffff-0123-3abc-7DEF-456789aBcDeF").
    + reflexivity.
    + intros i Hi. cbn [In] in Hi.
      repeat (destruct Hi as [<- | Hi]; [reflexivity|]). contradiction.
    + intros i Hi.
      do 36 (destruct i as [|i];
             [first [discriminate Hi | eexists; split; reflexivity]|]).
      discriminate Hi.
  - reflexivity.
  - apply (proj2 (Parse_ignores_version EmptyString) 0x30 0x70); reflexivity.
Defined.

(** C10: the text of the nil identifier decodes to the nil identifier with
    no error, while a failed decoding returns the nil identifier too: only
    the error tells them apart. *)
Theorem Parse_nil_text :
  Parse "00000000-0000-0000-0000-000000000000" = Ret (Nil, None) /\
  String_ Nil = Ret "00000000-0000-0000-0000-000000000000"%string /\
  Parse "00000000-0000-0000-0000-00000000000g"
  = Ret (Nil, Some (ErrDigit "00000000-0000-0000-0000-00000000000g")) /\
  exists (t t' : string) (e : error),
    fmap fst (Parse t) = fmap fst (Parse t') /\
    fmap snd (Parse t) = Ret None /\
    fmap snd (Parse t') = Ret (Some e).
Proof.
  split; [reflexivity|]. split; [reflexivity|]. split; [reflexivity|].
  exists "00000000-0000-0000-0000-000000000000"%string, EmptyString.
  eexists. repeat split; reflexivity.
Qed.

(** ** Case *)

Lemma raised_get (s s' : string) :
  raised s s' ->
  forall i,
    match String.get i s with
    | Some c =>
        String.get i s' = Some c \/
        (is_lower_letter c = true /\ String.get i s' = Some (upper_hex c))
    | None => String.get i s' = None
    end.
Proof.
  induction 1 as [|c s s' _ IH|c s s' Hc _ IH]; intros i.
  - reflexivity.
  - destruct i as [|i]; cbn [String.get]; [left; reflexivity | apply IH].
  - destruct i as [|i]; cbn [String.get]; [right; auto | apply IH].
Qed.

Lemma raised_length (s s' : string) :
  raised s s' -> String.length s' = String.length s.
Proof. induction 1; cbn; congruence. Qed.

Lemma raised_refl (s : string) : raised s s.
Proof. induction s; constructor; assumption. Qed.

(** The table of [Parse] gives an upper-case letter the value of the
    lower-case one, and neither is a hyphen. *)
Lemma upper_hex_same (c : ascii) :
  is_lower_letter c = true ->
  is_hex_digit (upper_hex c) = is_hex_digit c /\
  digit_value (upper_hex c) = digit_value c /\
  Ascii.eqb (upper_hex c) "-" = Ascii.eqb c "-".
Proof.
  intros Hc.
  pose proof (all_chars (fun c =>
    negb (is_lower_letter c)
    || (Bool.eqb (is_hex_digit (upper_hex c)) (is_hex_digit c)
        && (digit_value (upper_hex c) =? digit_value c)
        && Bool.eqb (Ascii.eqb (upper_hex c) "-") (Ascii.eqb c "-")))
    ltac:(vm_compute; reflexivity) c) as H.
  cbv beta in H. rewrite Hc in H. cbn [negb orb] in H.
  apply andb_true_iff in H as [H H3]. apply andb_true_iff in H as [H1 H2].
  apply eqb_prop in H1, H3. apply Z.eqb_eq in H2. auto.
Qed.

Lemma raised_at (s s' : string) (i : nat) :
  raised s s' ->
  dash_at s' i = dash_at s i /\
  hex_at s' i = hex_at s i /\
  value_at s' i = value_at s i.
Proof.
  intros H. pose proof (raised_get s s' H i) as Hi.
  unfold dash_at, hex_at, value_at.
  destruct (String.get i s) as [c|].
  - destruct Hi as [-> | [Hc ->]]; [auto|].
    destruct (upper_hex_same c Hc) as (H1 & H2 & H3). auto.
  - rewrite Hi. auto.
Qed.

Lemma forallb_same {A : Type} (f g : A -> bool) (l : list A) :
  (forall x, f x = g x) -> forallb f l = forallb g l.
Proof.
  intros H. induction l as [|x l IH]; cbn; [|rewrite H, IH]; reflexivity.
Qed.

(** Raising letters changes neither the verdict of the three checks nor the
    decoded bytes. *)
Lemma raised_checks (s s' : string) :
  raised s s' ->
  bad_length s' = bad_length s /\
  missing_separator s' = missing_separator s /\
  invalid_hex_digit s' = invalid_hex_digit s /\
  decode s' = decode s.
Proof.
  intros H.
  unfold bad_length, missing_separator, invalid_hex_digit, decode.
  rewrite (raised_length s s' H).
  rewrite (forallb_same (dash_at s') (dash_at s))
    by (intros i; apply (raised_at s s' i H)).
  rewrite (forallb_same (pair_ok s') (pair_ok s)).
  2:{ intros i. unfold pair_ok.
      destruct (raised_at s s' i H) as (_ & -> & _).
      destruct (raised_at s s' (i + 1) H) as (_ & -> & _). reflexivity. }
  repeat split. apply map_ext. intros i. unfold pair_value.
  destruct (raised_at s s' i H) as (_ & _ & ->).
  destruct (raised_at s s' (i + 1) H) as (_ & _ & ->). reflexivity.
Qed.

Lemma Parse_spec_accepted (s : string) (u : UUID) :
  Parse_spec s = (u, None) ->
  bad_length s = false /\ missing_separator s = false /\
  invalid_hex_digit s = false /\ u = decode s.
Proof.
  unfold Parse_spec.
  destruct (bad_length s); [discriminate|].
  destruct (missing_separator s); [discriminate|].
  destruct (invalid_hex_digit s); [discriminate|].
  intros H. injection H as <-. auto.
Qed.

(** A digit of either case comes back from its value in lower case. *)
Lemma lower_digit_of_value (c : ascii) :
  is_hex_digit c = true -> char (lower_digit (digit_value c)) = lower_hex c.
Proof.
  intros Hc.
  pose proof (all_chars (fun c =>
    negb (is_hex_digit c)
    || Ascii.eqb (char (lower_digit (digit_value c))) (lower_hex c))
    ltac:(vm_compute; reflexivity) c) as H.
  cbv beta in H. rewrite Hc in H. apply Ascii.eqb_eq in H. exact H.
Qed.

Lemma lower_digits_of_pair (c1 c2 : ascii) :
  is_hex_digit c1 && is_hex_digit c2 = true ->
  char (lower_digit ((16 * digit_value c1 + digit_value c2) / 16))
  = lower_hex c1 /\
  char (lower_digit ((16 * digit_value c1 + digit_value c2) mod 16))
  = lower_hex c2.
Proof.
  intros H. apply andb_true_iff in H as [H1 H2].
  pose proof (digit_value_range c1 H1). pose proof (digit_value_range c2 H2).
  replace ((16 * digit_value c1 + digit_value c2) / 16) with (digit_value c1)
    by (apply (Z.div_unique _ 16 _ (digit_value c2)); lia).
  replace ((16 * digit_value c1 + digit_value c2) mod 16) with (digit_value c2)
    by (apply (Z.mod_unique _ 16 (digit_value c1)); lia).
  split; apply lower_digit_of_value; assumption.
Qed.

Ltac explode_string s Hlen :=
  do 36 (destruct s as [|?c s];
         [discriminate Hlen
         | cbn [String.length] in Hlen; apply Nat.succ_inj in Hlen]);
  destruct s; [clear Hlen | discriminate Hlen].

Ltac use_pair Hpairs n :=
  let H := fresh "H" in
  let Ha := fresh "Ha" in
  let Hb := fresh "Hb" in
  assert (H := Hpairs n ltac:(lia));
  cbv [nth hexStartedIndex pair_ok hex_at String.get Nat.add] in H;
  destruct (lower_digits_of_pair _ _ H) as [Ha Hb];
  rewrite Ha, Hb; clear H Ha Hb.

Lemma layout_decode (s : string) :
  bad_length s = false -> missing_separator s = false ->
  invalid_hex_digit s = false ->
  layout (decode s) = lower_hex_string s.
Proof.
  intros Hlen Hsep Hdigit.
  apply negb_false_iff, Nat.eqb_eq in Hlen.
  apply negb_false_iff in Hsep, Hdigit.
  rewrite forallb_forall in Hsep, Hdigit.
  assert (H8 := Hsep 8%nat ltac:(cbn; tauto)).
  assert (H13 := Hsep 13%nat ltac:(cbn; tauto)).
  assert (H18 := Hsep 18%nat ltac:(cbn; tauto)).
  assert (H23 := Hsep 23%nat ltac:(cbn; tauto)).
  apply dash_at_true in H8, H13, H18, H23.
  assert (Hpairs : forall n, (n < 16)%nat ->
            pair_ok s (nth n hexStartedIndex 0%nat) = true).
  { intros n Hn. apply Hdigit, nth_In. exact Hn. }
  clear Hsep Hdigit.
  explode_string s Hlen.
  cbn [String.get] in H8, H13, H18, H23.
  injection H8 as ->. injection H13 as ->.
  injection H18 as ->. injection H23 as ->.
  unfold decode, layout, hex_string.
  cbv [hexStartedIndex map pair_value value_at String.get Nat.add
       sub firstn skipn hex_bytes string_of_bytes String.append
       lower_hex_string].
  use_pair Hpairs 0%nat. use_pair Hpairs 1%nat. use_pair Hpairs 2%nat.
  use_pair Hpairs 3%nat. use_pair Hpairs 4%nat. use_pair Hpairs 5%nat.
  use_pair Hpairs 6%nat. use_pair Hpairs 7%nat. use_pair Hpairs 8%nat.
  use_pair Hpairs 9%nat. use_pair Hpairs 10%nat. use_pair Hpairs 11%nat.
  use_pair Hpairs 12%nat. use_pair Hpairs 13%nat. use_pair Hpairs 14%nat.
  use_pair Hpairs 15%nat.
  reflexivity.
Qed.

(** C9: a string [Parse] accepts is accepted as well with any of its
    letters a-f written in upper case, and gives the same identifier; the
    text of that identifier is the string with its hex letters in lower
    case, so that a string with an upper-case letter does not come back
    from decoding and encoding. *)
Theorem Parse_case_insensitive (s s' : string) (u : UUID) :
  Parse s = Ret (u, None) ->
  raised s s' ->
  Parse s' = Ret (u, None) /\
  String_ u = Ret (lower_hex_string s) /\
  String_ u = Ret (lower_hex_string s') /\
  (lower_hex_string s' <> s' -> String_ u <> Ret s').
Proof.
  intros Hs Hraised. rewrite Parse_refines in Hs. injection Hs as Hs.
  apply Parse_spec_accepted in Hs as (Hlen & Hsep & Hdigit & ->).
  destruct (raised_checks s s' Hraised) as (Elen & Esep & Edigit & Edecode).
  assert (Hs' : String_ (decode s) = Ret (lower_hex_string s')).
  { rewrite String_layout by (apply decode_wf, Hdigit).
    rewrite <- Edecode. f_equal. apply layout_decode; congruence. }
  split; [|split; [|split]].
  - rewrite Parse_refines. unfold Parse_spec.
    rewrite Elen, Esep, Edigit, Hlen, Hsep, Hdigit, Edecode. reflexivity.
  - rewrite String_layout by (apply decode_wf, Hdigit).
    f_equal. apply layout_decode; assumption.
  - exact Hs'.
  - intros Hne Heq. rewrite Hs' in Heq. injection Heq as Heq. contradiction.
Qed.

Lemma Parse_case_insensitive_witness :
  Parse "00010203-0405-4607-8809-0A0b0C0d0E0F"
  = Ret ([0; 1; 2; 3; 4; 5; 0x46; 7; 0x88; 9; 10; 11; 12; 13; 14; 15], None) /\
  String_ [0; 1; 2; 3; 4; 5; 0x46; 7; 0x88; 9; 10; 11; 12; 13; 14; 15]
  = Ret "00010203-0405-4607-8809-0a0b0c0d0e0f"%string /\
  String_ [0; 1; 2; 3; 4; 5; 0x46; 7; 0x88; 9; 10; 11; 12; 13; 14; 15]
  <> Ret "00010203-0405-4607-8809-0A0b0C0d0E0F"%string.
Proof.
  assert (Hraised : raised "00010203-0405-4607-8809-0a0b0c0d0e0f"
                           "00010203-0405-4607-8809-0A0b0C0d0E0F").
  { do 25 apply raised_keep.
    apply (raised_upper "a"); [reflexivity|]. do 3 apply raised_keep.
    apply (raised_upper "c"); [reflexivity|]. do 3 apply raised_keep.
    apply (raised_upper "e"); [reflexivity|]. apply raised_keep.
    apply (raised_upper "f"); [reflexivity|]. apply raised_nil. }
  pose proof (Parse_case_insensitive
    "00010203-0405-4607-8809-0a0b0c0d0e0f"
    "00010203-0405-4607-8809-0A0b0C0d0E0F"
    [0; 1; 2; 3; 4; 5; 0x46; 7; 0x88; 9; 10; 11; 12; 13; 14; 15]
    eq_refl Hraised) as (H1 & H2 & _ & H4).
  split; [exact H1|]. split; [exact H2|].
  apply H4. cbn. discriminate.
Defined.

(** ** The version-4 predicate *)

Lemma UUID_eqb_eq (a b : UUID) : UUID_eqb a b = true <-> a = b.
Proof.
  revert b; induction a as [|x a IH]; intros [|y b]; cbn;
    try (split; (discriminate || reflexivity)).
  rewrite andb_true_iff, Z.eqb_eq, IH. split.
  - intros [-> ->]. reflexivity.
  - intros H. injection H as -> ->. auto.
Qed.

Lemma IsV4_iff (u : UUID) :
  IsV4 u = true <->
  u = Nil \/ (Z.shiftr (at_ u 6) 4 = 4 /\ Z.shiftr (at_ u 8) 6 = 2).
Proof.
  unfold IsV4. destruct (UUID_eqb u Nil) eqn:Hnil.
  - apply UUID_eqb_eq in Hnil. tauto.
  - assert (u <> Nil) by (rewrite <- UUID_eqb_eq; congruence).
    destruct (Z.shiftr (at_ u 6) 4 =? 4) eqn:H6; cbn [negb].
    + destruct (Z.shiftr (at_ u 8) 6 =? 2) eqn:H8; cbn [negb].
      * apply Z.eqb_eq in H6, H8. tauto.
      * apply Z.eqb_neq in H8. split; [discriminate | tauto].
    + apply Z.eqb_neq in H6. split; [discriminate | tauto].
Qed.

(** C4: [IsV4] holds exactly of the nil identifier and of the identifiers
    whose byte 6 has the high half 0100 and whose byte 8 has the top bits
    10. It holds of nil; it fails when the high half of byte 6 is 3, and
    when that half is 4 but byte 8 is 0x70. *)
Theorem IsV4_exactly (u : UUID) :
  (IsV4 u = true <-> u = Nil \/ (at_ u 6 / 16 = 4 /\ at_ u 8 / 64 = 2)) /\
  IsV4 Nil = true /\
  (at_ u 6 / 16 = 3 -> IsV4 u = false) /\
  (at_ u 6 / 16 = 4 -> at_ u 8 = 0x70 -> IsV4 u = false).
Proof.
  assert (H6 : Z.shiftr (at_ u 6) 4 = at_ u 6 / 16)
    by (rewrite Z.shiftr_div_pow2 by lia; reflexivity).
  assert (H8 : Z.shiftr (at_ u 8) 6 = at_ u 8 / 64)
    by (rewrite Z.shiftr_div_pow2 by lia; reflexivity).
  pose proof (IsV4_iff u) as Hiff. rewrite H6, H8 in Hiff.
  split; [exact Hiff|]. split; [reflexivity|]. split.
  - intros H. apply not_true_is_false. intros Ht. apply Hiff in Ht.
    destruct Ht as [-> | [Ht _]]; [discriminate H | lia].
  - intros Hv H. apply not_true_is_false. intros Ht. apply Hiff in Ht.
    destruct Ht as [-> | [_ Ht]]; [discriminate H|].
    rewrite H in Ht. discriminate Ht.
Qed.

Lemma IsV4_exactly_witness :
  IsV4 [0; 0; 0; 0; 0; 0; 0x30; 0; 0; 0; 0; 0; 0; 0; 0; 0] = false /\
  IsV4 [0; 0; 0; 0; 0; 0; 0x40; 0; 0x70; 0; 0; 0; 0; 0; 0; 0] = false /\
  IsV4 [0; 1; 2; 3; 4; 5; 0x46; 7; 0x88; 9; 10; 11; 12; 13; 14; 15] = true.
Proof.
  split; [|split].
  - destruct (IsV4_exactly
                [0; 0; 0; 0; 0; 0; 0x30; 0; 0; 0; 0; 0; 0; 0; 0; 0])
      as (_ & _ & H & _).
    apply H. reflexivity.
  - destruct (IsV4_exactly
                [0; 0; 0; 0; 0; 0; 0x40; 0; 0x70; 0; 0; 0; 0; 0; 0; 0])
      as (_ & _ & _ & H).
    apply H; reflexivity.
  - destruct (IsV4_exactly
                [0; 1; 2; 3; 4; 5; 0x46; 7; 0x88; 9; 10; 11; 12; 13; 14; 15])
      as (H & _).
    apply H. right. split; reflexivity.
Defined.

(** ** Reading *)

(** When the loop of [io.ReadAtLeast] ends, the buffer has kept its length
    and either enough bytes were read or the reader gave an error. *)
Lemma ReadAtLeast_loop_exit (r : io.Reader) (fuel : nat) :
  forall (st : io.state r) (buf : list byte) (min n : nat)
         (err : option error) buf' n' err' st',
    io.ReadAtLeast_loop r fuel st buf min n err = Ret (buf', n', err', st') ->
    length buf' = length buf /\
    ((n' <? min)%nat && io.is_nil err') = false.
Proof.
  induction fuel as [|fuel IH]; intros st buf min n err buf' n' err' st' H.
  - cbn [io.ReadAtLeast_loop] in H.
    destruct ((n <? min)%nat && io.is_nil err) eqn:Hc; [discriminate|].
    injection H as <- <- <- <-. auto.
  - cbn [io.ReadAtLeast_loop] in H.
    destruct ((n <? min)%nat && io.is_nil err) eqn:Hc.
    + destruct (reslice _ n _) as [p| |]; cbn [bind] in H; try discriminate.
      destruct (io.Read r st (size p)) as [[data e] st1].
      apply IH in H as [Hlen Hexit].
      rewrite length_write_at in Hlen. auto.
    + injection H as <- <- <- <-. auto.
Qed.

(** [io.ReadFull] gives no error exactly when it has filled the buffer. *)
Lemma ReadFull_result (r : io.Reader) (fuel : nat) (buf buf' : list byte)
    (n : nat) (err : option error) (st : io.state r) :
  io.ReadFull fuel r buf = Ret (buf', n, err, st) ->
  length buf' = length buf /\
  ((n < length buf)%nat -> err <> None) /\
  ((length buf <= n)%nat -> err = None).
Proof.
  unfold io.ReadFull, io.ReadAtLeast. rewrite Nat.ltb_irrefl.
  destruct (io.ReadAtLeast_loop r fuel (io.current r) buf (length buf) 0 None)
    as [[[[b k] e] s]| |] eqn:Hloop; cbn [bind]; try discriminate.
  apply ReadAtLeast_loop_exit in Hloop as [Hlen Hexit].
  destruct (length buf <=? k)%nat eqn:Hk.
  - intros H. injection H as <- <- <- <-. apply Nat.leb_le in Hk.
    split; [exact Hlen|]. split; [lia | reflexivity].
  - apply Nat.leb_gt in Hk.
    assert (He : e <> None).
    { destruct e; [discriminate|].
      apply Nat.ltb_lt in Hk. rewrite Hk in Hexit. discriminate Hexit. }
    destruct ((0 <? k)%nat && io.is_EOF e);
      intros H; injection H as <- <- <- <-;
      (split; [exact Hlen|]; split; [intros _; congruence | lia]).
Qed.

(** A reader whose first [Read] ends in an error before the buffer is full
    is asked only once. *)
Lemma ReadFull_first_error (r : io.Reader) (fuel : nat) (len : nat)
    (data : list byte) (e : error) (st : io.state r) :
  io.Read r (io.current r) len = (data, Some e, st) ->
  (length data < len)%nat ->
  io.ReadFull (S fuel) r (repeat 0 len)
  = Ret (write_at 0 data (repeat 0 len), length data,
         Some (if (0 <? length data)%nat && io.is_EOF (Some e)
               then ErrUnexpectedEOF else e), st).
Proof.
  intros Hread Hshort.
  unfold io.ReadFull, io.ReadAtLeast. rewrite Nat.ltb_irrefl.
  rewrite repeat_length.
  assert (Hlen : (0 < len)%nat) by lia.
  cbn [io.ReadAtLeast_loop].
  replace (0 <? len)%nat with true by (symmetry; apply Nat.ltb_lt; lia).
  cbn [andb io.is_nil]. unfold reslice. cbn [cap size off].
  rewrite repeat_length.
  replace ((0 <=? len)%nat && (len <=? len)%nat) with true
    by (symmetry; apply andb_true_iff; split; apply Nat.leb_le; lia).
  cbn [bind size off]. rewrite Nat.sub_0_r, Hread. cbn [Nat.add].
  destruct fuel as [|fuel]; cbn [io.ReadAtLeast_loop];
    rewrite andb_false_r; cbn [bind];
    (replace (len <=? length data)%nat with false
       by (symmetry; apply Nat.leb_gt; lia));
    destruct ((0 <? length data)%nat && io.is_EOF (Some e)); reflexivity.
Qed.

(** With a reader that makes progress the loop ends within one [Read] per
    byte still missing, and never slices out of range. *)
Lemma ReadAtLeast_loop_returns (r : io.Reader) (min : nat) :
  progresses r ->
  forall (fuel : nat) (st : io.state r) (buf : list byte) (n : nat)
         (err : option error),
    length buf = min ->
    (n <= min)%nat ->
    (err <> None \/ min <= fuel + n)%nat ->
    exists res, io.ReadAtLeast_loop r fuel st buf min n err = Ret res.
Proof.
  intros Hprog. induction fuel as [|fuel IH]; intros st buf n err Hlen Hn Hfuel.
  - cbn [io.ReadAtLeast_loop].
    destruct ((n <? min)%nat && io.is_nil err) eqn:Hc; [|eauto].
    apply andb_true_iff in Hc as [Hlt Hnil]. apply Nat.ltb_lt in Hlt.
    destruct err; [discriminate Hnil|]. destruct Hfuel; [congruence | exfalso; lia].
  - cbn [io.ReadAtLeast_loop].
    destruct ((n <? min)%nat && io.is_nil err) eqn:Hc; [|eauto].
    apply andb_true_iff in Hc as [Hlt Hnil]. apply Nat.ltb_lt in Hlt.
    unfold reslice. cbn [cap size off]. rewrite Hlen.
    replace ((n <=? min)%nat && (min <=? min)%nat) with true
      by (symmetry; apply andb_true_iff; split; apply Nat.leb_le; lia).
    cbn [bind size off].
    pose proof (io.Read_bound r st (min - n)) as Hbound.
    pose proof (Hprog st (min - n)%nat ltac:(lia)) as Hstep.
    destruct (io.Read r st (min - n)) as [[data e] st1].
    cbn [fst snd] in Hbound, Hstep.
    apply IH.
    + rewrite length_write_at. exact Hlen.
    + lia.
    + destruct Hstep as [Hdata | He]; [|left; exact He].
      right. destruct err; [discriminate Hnil|].
      destruct Hfuel as [Hfuel | Hfuel]; [congruence|].
      destruct data; [congruence | cbn [length]; lia].
Qed.

Lemma ReadFull_returns (r : io.Reader) (buf : list byte) :
  progresses r ->
  exists res, io.ReadFull (length buf) r buf = Ret res.
Proof.
  intros Hprog. unfold io.ReadFull, io.ReadAtLeast. rewrite Nat.ltb_irrefl.
  destruct (ReadAtLeast_loop_returns r (length buf) Hprog (length buf)
              (io.current r) buf 0 None eq_refl ltac:(lia) ltac:(right; lia))
    as [[[[b k] e] s] Hloop].
  rewrite Hloop. cbn [bind].
  destruct (length buf <=? k)%nat; [eauto|].
  destruct ((0 <? k)%nat && io.is_EOF e); eauto.
Qed.

(** ** The generator *)

Lemma version_bits (b : byte) : Z.shiftr (Z.lor (Z.land b 0x0f) 0x40) 4 = 4.
Proof.
  rewrite Z.shiftr_lor, Z.shiftr_land.
  change (Z.shiftr 0x0f 4) with 0. rewrite Z.land_0_r. reflexivity.
Qed.

Lemma variant_bits (b : byte) : Z.shiftr (Z.lor (Z.land b 0x3f) 0x80) 6 = 2.
Proof.
  rewrite Z.shiftr_lor, Z.shiftr_land.
  change (Z.shiftr 0x3f 6) with 0. rewrite Z.land_0_r. reflexivity.
Qed.

(** The stamps keep the low four bits of byte 6 and the low six of byte 8. *)
Lemma stamps_keep_low_bits (b : byte) :
  Z.land (Z.lor (Z.land b 0x0f) 0x40) 0x0f = Z.land b 0x0f /\
  Z.land (Z.lor (Z.land b 0x3f) 0x80) 0x3f = Z.land b 0x3f.
Proof.
  rewrite !Z.land_lor_distr_l, <- !Z.land_assoc.
  change (Z.land 0x0f 0x0f) with 0x0f. change (Z.land 0x40 0x0f) with 0.
  change (Z.land 0x3f 0x3f) with 0x3f. change (Z.land 0x80 0x3f) with 0.
  rewrite !Z.lor_0_r. split; reflexivity.
Qed.

Ltac explode_list l Hlen :=
  do 16 (destruct l as [|?b l]; [discriminate Hlen|]);
  destruct l; [clear Hlen | discriminate Hlen].

(** C2: when the read of sixteen bytes succeeds, [NewUUID] returns those
    bytes with byte 6 replaced by [(b6 & 0x0f) | 0x40] and byte 8 by
    [(b8 & 0x3f) | 0x80] and the fourteen others as read; the result
    satisfies [IsV4], the high half of its byte 6 is 4 and the top two bits
    of its byte 8 are 10. *)
Theorem NewUUID_stamps (fuel : nat) (v : V4Generator) (buf : list byte)
    (n : nat) (st : io.state (factory v tt)) :
  io.ReadFull fuel (factory v tt) (repeat 0 16) = Ret (buf, n, None, st) ->
  exists uid : UUID,
    NewUUID fuel v = Ret (uid, None, st) /\
    length buf = 16%nat /\ length uid = 16%nat /\
    at_ uid 6 = Z.lor (Z.land (at_ buf 6) 0x0f) 0x40 /\
    at_ uid 8 = Z.lor (Z.land (at_ buf 8) 0x3f) 0x80 /\
    (forall i, i <> 6%nat -> i <> 8%nat -> at_ uid i = at_ buf i) /\
    IsV4 uid = true /\
    at_ uid 6 / 16 = 4 /\
    at_ uid 8 / 64 = 2.
Proof.
  intros Hread.
  destruct (ReadFull_result _ _ _ _ _ _ _ Hread) as (Hlen & _ & _).
  rewrite repeat_length in Hlen.
  unfold NewUUID, fillUUID. rewrite Hread. cbn [bind].
  eexists. split; [reflexivity|].
  pose proof Hlen as Hlen'. explode_list buf Hlen'.
  cbn [at_ nth upd].
  split; [exact Hlen|]. split; [reflexivity|].
  split; [reflexivity|]. split; [reflexivity|]. split.
  - intros i H6 H8.
    do 16 (destruct i as [|i]; [first [reflexivity | congruence]|]).
    destruct i; reflexivity.
  - assert (H6 := version_bits b5). assert (H8 := variant_bits b7).
    split; [|split].
    + apply IsV4_iff. right. cbn [at_ nth]. auto.
    + rewrite Z.shiftr_div_pow2 in H6 by lia. exact H6.
    + rewrite Z.shiftr_div_pow2 in H8 by lia. exact H8.
Qed.

Lemma NewUUID_stamps_witness :
  exists uid : UUID,
    NewUUID 1 (NewV4Generator (fun _ => bytes.NewReader
      [0xff; 0xfe; 0xfd; 0xfc; 0xfb; 0xfa; 0xf9; 0xf8;
       0x37; 0xf6; 0xf5; 0xf4; 0xf3; 0xf2; 0xf1; 0xf0; 0xef; 0xee]))
    = Ret (uid, None,
           ([0xff; 0xfe; 0xfd; 0xfc; 0xfb; 0xfa; 0xf9; 0xf8;
             0x37; 0xf6; 0xf5; 0xf4; 0xf3; 0xf2; 0xf1; 0xf0; 0xef; 0xee],
            16%nat)) /\
    at_ uid 6 = 0x49 /\ at_ uid 8 = 0xb7 /\ IsV4 uid = true.
Proof.
  destruct (NewUUID_stamps 1
    (NewV4Generator (fun _ => bytes.NewReader
      [0xff; 0xfe; 0xfd; 0xfc; 0xfb; 0xfa; 0xf9; 0xf8;
       0x37; 0xf6; 0xf5; 0xf4; 0xf3; 0xf2; 0xf1; 0xf0; 0xef; 0xee]))
    [0xff; 0xfe; 0xfd; 0xfc; 0xfb; 0xfa; 0xf9; 0xf8;
     0x37; 0xf6; 0xf5; 0xf4; 0xf3; 0xf2; 0xf1; 0xf0]
    16%nat
    ([0xff; 0xfe; 0xfd; 0xfc; 0xfb; 0xfa; 0xf9; 0xf8;
      0x37; 0xf6; 0xf5; 0xf4; 0xf3; 0xf2; 0xf1; 0xf0; 0xef; 0xee], 16%nat)
    eq_refl) as (uid & H & _ & _ & H6 & H8 & _ & HV4 & _).
  exists uid. auto.
Defined.

(** A [bytes.Reader] over sixteen bytes hands them over in one [Read]. *)
Lemma ReadFull_bytes (fuel : nat) (data : list byte) :
  length data = 16%nat ->
  io.ReadFull (S fuel) (bytes.NewReader data) (repeat 0 16)
  = Ret (data, 16%nat, None, (data, 16%nat)).
Proof.
  intros Hlen. explode_list data Hlen. destruct fuel; reflexivity.
Qed.

(** The generator on sixteen given bytes: the bytes, stamped. *)
Corollary NewUUID_of_bytes (fuel : nat) (data : list byte) :
  length data = 16%nat ->
  returned (NewUUID (S fuel) (NewV4Generator (fun _ => bytes.NewReader data)))
  = Ret (upd 8 (Z.lor (Z.land (at_ data 8) 0x3f) 0x80)
           (upd 6 (Z.lor (Z.land (at_ data 6) 0x0f) 0x40) data), None).
Proof.
  intros Hlen. unfold returned, NewUUID, fillUUID. cbn [factory NewV4Generator].
  rewrite (ReadFull_bytes fuel data Hlen). explode_list data Hlen. reflexivity.
Qed.

(** C7: when the read ends with fewer than sixteen bytes, [NewUUID] returns
    the error of the read with the nil identifier, whatever part of the
    buffer was filled, and leaves the reader where that one read left it.
    A reader whose first [Read] fails is asked exactly once. With a reader
    that makes progress [NewUUID] always returns, and an error never comes
    with anything but the nil identifier. *)
Theorem NewUUID_read_failure (v : V4Generator) :
  (forall (fuel : nat) (buf : list byte) (n : nat) (err : option error)
          (st : io.state (factory v tt)),
     io.ReadFull fuel (factory v tt) (repeat 0 16) = Ret (buf, n, err, st) ->
     (n < 16)%nat ->
     exists e : error,
       err = Some e /\ NewUUID fuel v = Ret (Nil, Some e, st)) /\
  (forall (fuel : nat) (data : list byte) (e : error)
          (st : io.state (factory v tt)),
     io.Read (factory v tt) (io.current (factory v tt)) 16
     = (data, Some e, st) ->
     (length data < 16)%nat ->
     NewUUID (S fuel) v
     = Ret (Nil,
            Some (if (0 <? length data)%nat && io.is_EOF (Some e)
                  then ErrUnexpectedEOF else e),
            st)) /\
  (progresses (factory v tt) ->
   exists (uid : UUID) (err : option error) (st : io.state (factory v tt)),
     NewUUID 16 v = Ret (uid, err, st) /\
     (err <> None -> uid = Nil)).
Proof.
  split; [|split].
  - intros fuel buf n err st Hread Hn.
    destruct (ReadFull_result _ _ _ _ _ _ _ Hread) as (_ & Herr & _).
    rewrite repeat_length in Herr. specialize (Herr Hn).
    destruct err as [e|]; [|congruence].
    exists e. split; [reflexivity|].
    unfold NewUUID, fillUUID. rewrite Hread. reflexivity.
  - intros fuel data e st Hread Hshort.
    unfold NewUUID, fillUUID.
    rewrite (ReadFull_first_error _ fuel 16 data e st Hread Hshort).
    reflexivity.
  - intros Hprog.
    destruct (ReadFull_returns (factory v tt) (repeat 0 16) Hprog)
      as [[[[buf n] err] st] Hread].
    rewrite repeat_length in Hread.
    unfold NewUUID, fillUUID. rewrite Hread. cbn [bind].
    destruct err as [e|]; cbn [bind].
    + exists Nil, (Some e), st. split; reflexivity.
    + eexists _, None, st. split; [reflexivity | congruence].
Qed.

Lemma NewUUID_read_failure_witness :
  NewUUID 3 (NewV4Generator ErrorsReader) = Ret (Nil, Some EOF, tt) /\
  NewUUID 3 (NewV4Generator (fun _ => bytes.NewReader [1; 2; 3]))
  = Ret (Nil, Some ErrUnexpectedEOF, ([1; 2; 3], 3%nat)) /\
  exists (uid : UUID) (err : option error) (st : unit),
    NewUUID 16 (NewV4Generator ErrorsReader) = Ret (uid, err, st) /\
    (err <> None -> uid = Nil).
Proof.
  split; [|split].
  - apply (proj1 (proj2 (NewUUID_read_failure (NewV4Generator ErrorsReader)))
             2%nat [] EOF tt eq_refl).
    cbn. lia.
  - destruct (proj1 (NewUUID_read_failure
                       (NewV4Generator (fun _ => bytes.NewReader [1; 2; 3])))
                3%nat [1; 2; 3; 0; 0; 0; 0; 0; 0; 0; 0; 0; 0; 0; 0; 0]
                3%nat (Some ErrUnexpectedEOF) ([1; 2; 3], 3%nat) eq_refl
                ltac:(lia)) as (e & He & H).
    injection He as <-. exact H.
  - apply (proj2 (proj2 (NewUUID_read_failure (NewV4Generator ErrorsReader)))).
    intros st k _. right. cbn. discriminate.
Defined.

(** C8: with the fixed reader every call of [NewUUID] succeeds with the
    identifier whose text is [StaticUUID]; two calls in a row give the same
    identifier. *)
Theorem StaticReader_same_identifier (fuel : nat) :
  returned (NewUUID (S fuel) (NewV4Generator StaticReader))
  = Ret ([0; 1; 2; 3; 4; 5; 0x46; 7; 0x88; 9; 10; 11; 12; 13; 14; 15], None) /\
  String_ [0; 1; 2; 3; 4; 5; 0x46; 7; 0x88; 9; 10; 11; 12; 13; 14; 15]
  = Ret StaticUUID /\
  StaticUUID = "00010203-0405-4607-8809-0a0b0c0d0e0f"%string /\
  NewUUID_twice (S fuel) (NewV4Generator StaticReader)
  = Ret (([0; 1; 2; 3; 4; 5; 0x46; 7; 0x88; 9; 10; 11; 12; 13; 14; 15], None),
         ([0; 1; 2; 3; 4; 5; 0x46; 7; 0x88; 9; 10; 11; 12; 13; 14; 15], None)).
Proof.
  assert (H : returned (NewUUID (S fuel) (NewV4Generator StaticReader))
    = Ret ([0; 1; 2; 3; 4; 5; 0x46; 7; 0x88; 9; 10; 11; 12; 13; 14; 15], None))
    by (destruct fuel; reflexivity).
  split; [exact H|]. split; [reflexivity|]. split; [reflexivity|].
  unfold NewUUID_twice. rewrite H. reflexivity.
Qed.

(** * Further properties of the code *)

(** ** [Parse] on every input *)

(** X1: [Parse] indexes its argument only after the length check, so it
    returns on every string, never panics, and what it returns is an array
    of sixteen bytes. *)
Theorem Parse_never_panics (s : string) :
  exists (u : UUID) (e : option error),
    Parse s = Ret (u, e) /\ wf_uuid u = true.
Proof.
  exists (fst (Parse_spec s)), (snd (Parse_spec s)). split.
  - rewrite Parse_refines. destruct (Parse_spec s). reflexivity.
  - apply Parse_spec_wf.
Qed.

Lemma invalid_hex_digit_false (s : string) :
  String.length s = 36%nat ->
  invalid_hex_digit s = false ->
  forall i, digit_position i = true ->
            exists c, String.get i s = Some c /\ is_hex_digit c = true.
Proof.
  intros Hlen Hdigit.
  apply negb_false_iff in Hdigit. rewrite forallb_forall in Hdigit.
  assert (Hpairs : forall n, (n < 16)%nat ->
            pair_ok s (nth n hexStartedIndex 0%nat) = true).
  { intros n Hn. apply Hdigit, nth_In. exact Hn. }
  clear Hdigit. explode_string s Hlen.
  assert (H0 := Hpairs 0%nat ltac:(lia)). assert (H1 := Hpairs 1%nat ltac:(lia)).
  assert (H2 := Hpairs 2%nat ltac:(lia)). assert (H3 := Hpairs 3%nat ltac:(lia)).
  assert (H4 := Hpairs 4%nat ltac:(lia)). assert (H5 := Hpairs 5%nat ltac:(lia)).
  assert (H6 := Hpairs 6%nat ltac:(lia)). assert (H7 := Hpairs 7%nat ltac:(lia)).
  assert (H8 := Hpairs 8%nat ltac:(lia)). assert (H9 := Hpairs 9%nat ltac:(lia)).
  assert (H10 := Hpairs 10%nat ltac:(lia)).
  assert (H11 := Hpairs 11%nat ltac:(lia)).
  assert (H12 := Hpairs 12%nat ltac:(lia)).
  assert (H13 := Hpairs 13%nat ltac:(lia)).
  assert (H14 := Hpairs 14%nat ltac:(lia)).
  assert (H15 := Hpairs 15%nat ltac:(lia)).
  clear Hpairs.
  cbv [nth hexStartedIndex pair_ok hex_at String.get Nat.add] in *.
  repeat match goal with
  | H : _ && _ = true |- _ => apply andb_true_iff in H; destruct H
  end.
  intros i Hi.
  do 36 (destruct i as [|i];
         [first [discriminate Hi | eexists; split; [reflexivity | assumption]]|]).
  discriminate Hi.
Qed.

(** X2: [Parse] gives no error for exactly the strings of 36 characters
    with a hyphen at 8, 13, 18 and 23 and a hex digit at each of the 32
    other positions, and then returns the bytes the digit pairs denote; any
    other string, one with a character outside [0-9a-fA-F-] included, gets
    an error. *)
Theorem Parse_accepts_exactly (s : string) (u : UUID) :
  Parse s = Ret (u, None) <->
  String.length s = 36%nat /\
  (forall i, In i [8; 13; 18; 23]%nat -> String.get i s = Some "-"%char) /\
  (forall i, digit_position i = true ->
             exists c, String.get i s = Some c /\ is_hex_digit c = true) /\
  u = decode s.
Proof.
  rewrite Parse_refines. split.
  - intros H. injection H as H.
    apply Parse_spec_accepted in H as (Hlen & Hsep & Hdigit & ->).
    apply negb_false_iff, Nat.eqb_eq in Hlen.
    split; [exact Hlen|]. split; [|split; [|reflexivity]].
    + apply negb_false_iff in Hsep. rewrite forallb_forall in Hsep.
      intros i Hi. apply dash_at_true, Hsep, Hi.
    + apply invalid_hex_digit_false; assumption.
  - intros (Hlen & Hsep & Hdigit & ->). f_equal.
    apply Parse_spec_accepts; assumption.
Qed.

Lemma Parse_accepts_exactly_witness :
  String.length "00010203-0405-4607-8809-0A0b0C0d0E0F" = 36%nat /\
  decode "00010203-0405-4607-8809-0A0b0C0d0E0F"
  = [0; 1; 2; 3; 4; 5; 0x46; 7; 0x88; 9; 10; 11; 12; 13; 14; 15].
Proof.
  destruct (proj1 (Parse_accepts_exactly
    "00010203-0405-4607-8809-0A0b0C0d0E0F"
    [0; 1; 2; 3; 4; 5; 0x46; 7; 0x88; 9; 10; 11; 12; 13; 14; 15]) eq_refl)
    as (Hlen & _ & _ & Hu).
  split; [exact Hlen | symmetry; exact Hu].
Defined.

(** ** Texts and identifiers, one to one *)

(** X4: two different identifiers never have the same text. *)
Theorem String_injective (u v : UUID) :
  wf_uuid u = true -> wf_uuid v = true ->
  u <> v -> String_ u <> String_ v.
Proof.
  intros Hu Hv Hne H. apply Hne.
  rewrite !String_layout in H by assumption. injection H as H.
  pose proof (Parse_spec_layout u Hu) as Pu.
  pose proof (Parse_spec_layout v Hv) as Pv.
  rewrite H in Pu. congruence.
Qed.

Lemma String_injective_witness :
  String_ [0; 1; 2; 3; 4; 5; 0x46; 7; 0x88; 9; 10; 11; 12; 13; 14; 15]
  <> String_ [0; 1; 2; 3; 4; 5; 0x46; 7; 0x88; 9; 10; 11; 12; 13; 14; 16].
Proof.
  apply (String_injective
    [0; 1; 2; 3; 4; 5; 0x46; 7; 0x88; 9; 10; 11; 12; 13; 14; 15]
    [0; 1; 2; 3; 4; 5; 0x46; 7; 0x88; 9; 10; 11; 12; 13; 14; 16]);
    [reflexivity | reflexivity | discriminate].
Defined.

Lemma get_lower_hex_string (s : string) (i : nat) :
  String.get i (lower_hex_string s) = option_map lower_hex (String.get i s).
Proof.
  revert i; induction s as [|c s IH]; intros i; cbn.
  - reflexivity.
  - destruct i; [reflexivity | apply IH].
Qed.

Lemma length_lower_hex_string (s : string) :
  String.length (lower_hex_string s) = String.length s.
Proof. induction s; cbn; congruence. Qed.

(** Lower-casing a hex letter changes nothing that [Parse] looks at. *)
Lemma lower_hex_same (c : ascii) :
  is_hex_digit (lower_hex c) = is_hex_digit c /\
  digit_value (lower_hex c) = digit_value c /\
  Ascii.eqb (lower_hex c) "-" = Ascii.eqb c "-".
Proof.
  pose proof (all_chars (fun c =>
    Bool.eqb (is_hex_digit (lower_hex c)) (is_hex_digit c)
    && (digit_value (lower_hex c) =? digit_value c)
    && Bool.eqb (Ascii.eqb (lower_hex c) "-") (Ascii.eqb c "-"))
    ltac:(vm_compute; reflexivity) c) as H.
  cbv beta in H.
  apply andb_true_iff in H as [H H3]. apply andb_true_iff in H as [H1 H2].
  apply eqb_prop in H1, H3. apply Z.eqb_eq in H2. auto.
Qed.

Lemma lower_at (s : string) (i : nat) :
  dash_at (lower_hex_string s) i = dash_at s i /\
  hex_at (lower_hex_string s) i = hex_at s i /\
  value_at (lower_hex_string s) i = value_at s i.
Proof.
  unfold dash_at, hex_at, value_at. rewrite get_lower_hex_string.
  destruct (String.get i s) as [c|]; cbn [option_map]; [|auto].
  destruct (lower_hex_same c) as (H1 & H2 & H3). auto.
Qed.

(** The checks and the decoded bytes of a string are those of its
    lower-case form. *)
Lemma lower_checks (s : string) :
  bad_length (lower_hex_string s) = bad_length s /\
  missing_separator (lower_hex_string s) = missing_separator s /\
  invalid_hex_digit (lower_hex_string s) = invalid_hex_digit s /\
  decode (lower_hex_string s) = decode s.
Proof.
  unfold bad_length, missing_separator, invalid_hex_digit, decode.
  rewrite length_lower_hex_string.
  rewrite (forallb_same (dash_at (lower_hex_string s)) (dash_at s))
    by (intros i; apply (lower_at s i)).
  rewrite (forallb_same (pair_ok (lower_hex_string s)) (pair_ok s)).
  2:{ intros i. unfold pair_ok.
      destruct (lower_at s i) as (_ & -> & _).
      destruct (lower_at s (i + 1)) as (_ & -> & _). reflexivity. }
  repeat split. apply map_ext. intros i. unfold pair_value.
  destruct (lower_at s i) as (_ & _ & ->).
  destruct (lower_at s (i + 1)) as (_ & _ & ->). reflexivity.
Qed.

Lemma Parse_spec_lower (s : string) (u : UUID) :
  Parse_spec (lower_hex_string s) = (u, None) <-> Parse_spec s = (u, None).
Proof.
  destruct (lower_checks s) as (E1 & E2 & E3 & E4).
  unfold Parse_spec. rewrite E1, E2, E3, E4.
  destruct (bad_length s); [split; discriminate|].
  destruct (missing_separator s); [split; discriminate|].
  destruct (invalid_hex_digit s); [split; discriminate|].
  reflexivity.
Qed.

(** X3: two strings decode to the same identifier exactly when they are
    the same up to the case of their hex letters: given that [Parse]
    accepts [s], it accepts [s'] with the same identifier if and only if
    the lower-case forms of the two agree. *)
Theorem Parse_same_identifier (s s' : string) (u : UUID) :
  Parse s = Ret (u, None) ->
  (Parse s' = Ret (u, None) <-> lower_hex_string s' = lower_hex_string s).
Proof.
  rewrite !Parse_refines. intros Hs. injection Hs as Hs. split.
  - intros Hs'. injection Hs' as Hs'.
    apply Parse_spec_accepted in Hs as (H1 & H2 & H3 & Hu).
    apply Parse_spec_accepted in Hs' as (H1' & H2' & H3' & Hu').
    rewrite <- (layout_decode s), <- (layout_decode s') by assumption.
    congruence.
  - intros Hlower. f_equal.
    apply Parse_spec_lower. rewrite Hlower. apply Parse_spec_lower, Hs.
Qed.

Lemma Parse_same_identifier_witness :
  Parse "00010203-0405-4607-8809-0A0B0C0D0E0F"
  = Ret ([0; 1; 2; 3; 4; 5; 0x46; 7; 0x88; 9; 10; 11; 12; 13; 14; 15], None).
Proof.
  apply (Parse_same_identifier
           "00010203-0405-4607-8809-0a0b0c0d0e0f"
           "00010203-0405-4607-8809-0A0B0C0D0E0F"
           [0; 1; 2; 3; 4; 5; 0x46; 7; 0x88; 9; 10; 11; 12; 13; 14; 15]
           eq_refl).
  reflexivity.
Defined.

(** ** The table of digit values *)

(** X12: [hexValues] has an entry for each of the 256 bytes; the entry of a
    hex digit, of either case, is its value, the entry of any other byte
    is 0xff, and no digit has that value: the test [!= 0xff] of
    [hexToByte] is the test "is a hex digit". *)
Theorem hexValues_table (c : ascii) :
  length hexValues = 256%nat /\
  hexValue (code c) = (if is_hex_digit c then digit_value c else 0xff) /\
  negb (hexValue (code c) =? 0xff) = is_hex_digit c /\
  (if is_hex_digit c then hexValue (code c) <? 16 else true) = true.
Proof.
  split; [reflexivity|].
  pose proof (all_chars (fun c =>
    (hexValue (code c) =? (if is_hex_digit c then digit_value c else 0xff))
    && Bool.eqb (negb (hexValue (code c) =? 0xff)) (is_hex_digit c)
    && (if is_hex_digit c then hexValue (code c) <? 16 else true))
    ltac:(vm_compute; reflexivity) c) as H.
  cbv beta in H.
  apply andb_true_iff in H as [H H3]. apply andb_true_iff in H as [H1 H2].
  apply Z.eqb_eq in H1. apply eqb_prop in H2. auto.
Qed.

(** ** The canonical strings *)

Lemma lower_hex_fixed (c : ascii) :
  is_lower_hex c = true -> is_hex_digit c = true /\ lower_hex c = c.
Proof.
  intros Hc.
  pose proof (all_chars (fun c =>
    negb (is_lower_hex c)
    || (is_hex_digit c && Ascii.eqb (lower_hex c) c))
    ltac:(vm_compute; reflexivity) c) as H.
  cbv beta in H. rewrite Hc in H. cbn [negb orb] in H.
  apply andb_true_iff in H as [H1 H2]. apply Ascii.eqb_eq in H2. auto.
Qed.

Ltac regex_digit s H :=
  destruct s as [|?c s]; cbn [lower_hex_run and_then hyphen] in H;
  [discriminate H|];
  lazymatch type of H with
  | context [if is_lower_hex ?c then _ else _] =>
      let Hc := fresh "Hc" in
      destruct (is_lower_hex c) eqn:Hc;
      cbn [lower_hex_run and_then hyphen] in H; [|discriminate H]
  end.

Ltac regex_hyphen s H :=
  destruct s as [|?c s]; cbn [lower_hex_run and_then hyphen] in H;
  [discriminate H|];
  lazymatch type of H with
  | context [match ?c with Ascii _ _ _ _ _ _ _ _ => _ end] =>
      destruct c as [[] [] [] [] [] [] [] []];
      cbn [lower_hex_run and_then hyphen] in H; try discriminate H
  end.

(** A string that matches the regular expression passes the three checks
    of [Parse] and is its own lower-case form. *)
Lemma canonical_accepted (s : string) :
  matches_regex s = true ->
  bad_length s = false /\ missing_separator s = false /\
  invalid_hex_digit s = false /\ lower_hex_string s = s.
Proof.
  intros H. unfold matches_regex in H. cbv zeta in H.
  do 8 regex_digit s H. regex_hyphen s H.
  do 4 regex_digit s H. regex_hyphen s H.
  do 4 regex_digit s H. regex_hyphen s H.
  do 4 regex_digit s H. regex_hyphen s H.
  do 12 regex_digit s H.
  destruct s; [clear H | discriminate H].
  repeat match goal with
  | Hc : is_lower_hex ?c = true |- _ =>
      let H1 := fresh "Hhex" in let H2 := fresh "Hfix" in
      destruct (lower_hex_fixed c Hc) as [H1 H2]; clear Hc
  end.
  split; [reflexivity|]. split; [reflexivity|]. split.
  - unfold invalid_hex_digit.
    cbv [hexStartedIndex forallb pair_ok hex_at String.get Nat.add].
    repeat match goal with
    | Hh : is_hex_digit _ = true |- _ => rewrite Hh; clear Hh
    end.
    reflexivity.
  - cbn [lower_hex_string].
    repeat match goal with
    | Hf : lower_hex _ = _ |- _ => rewrite Hf; clear Hf
    end.
    reflexivity.
Qed.

(** X5: the strings that match the regular expression of the canonical
    form are exactly the texts of identifiers; on them decoding followed by
    encoding gives the string back. *)
Theorem canonical_strings (s : string) :
  (matches_regex s = true <->
   exists u : UUID, wf_uuid u = true /\ String_ u = Ret s) /\
  (matches_regex s = true ->
   exists u : UUID, Parse s = Ret (u, None) /\ String_ u = Ret s).
Proof.
  assert (Hback : matches_regex s = true ->
    Parse s = Ret (decode s, None) /\ wf_uuid (decode s) = true /\
    String_ (decode s) = Ret s).
  { intros H. apply canonical_accepted in H as (H1 & H2 & H3 & H4).
    split; [|split].
    - rewrite Parse_refines. unfold Parse_spec. rewrite H1, H2, H3.
      reflexivity.
    - apply decode_wf, H3.
    - rewrite String_layout by (apply decode_wf, H3).
      rewrite layout_decode by assumption. rewrite H4. reflexivity. }
  split; [split|].
  - intros H. exists (decode s). apply Hback in H. tauto.
  - intros (u & Hwf & Hs). rewrite String_layout in Hs by exact Hwf.
    injection Hs as <-. apply layout_regex, Hwf.
  - intros H. exists (decode s). apply Hback in H. tauto.
Qed.

Lemma canonical_strings_witness :
  exists u : UUID,
    Parse "00010203-0405-4607-8809-0a0b0c0d0e0f" = Ret (u, None) /\
    String_ u = Ret "00010203-0405-4607-8809-0a0b0c0d0e0f"%string.
Proof.
  apply (proj2 (canonical_strings "00010203-0405-4607-8809-0a0b0c0d0e0f")).
  reflexivity.
Defined.

(** ** What a generator can return *)

(** X6: whatever [NewUUID] returns is an array of sixteen entries that
    [IsV4] accepts, with or without an error: without one it is never the
    nil identifier, with one it always is. So [IsV4] cannot tell a failed
    generation from a good one; only the error can. The same holds of
    [New], which is [NewUUID] on the generator over [SecureReader]. *)
Theorem NewUUID_outcome (fuel : nat) :
  (forall (v : V4Generator) (uid : UUID) (err : option error)
          (st : io.state (factory v tt)),
     NewUUID fuel v = Ret (uid, err, st) ->
     length uid = 16%nat /\
     IsV4 uid = true /\
     (err = None -> uid <> Nil) /\
     (err <> None -> uid = Nil)) /\
  (forall (r : io.Reader) (uid : UUID) (err : option error)
          (st : io.state r),
     New r fuel = Ret (uid, err, st) ->
     IsV4 uid = true /\ (err = None <-> uid <> Nil)).
Proof.
  assert (Hgen : forall (v : V4Generator) (uid : UUID) (err : option error)
                        (st : io.state (factory v tt)),
            NewUUID fuel v = Ret (uid, err, st) ->
            length uid = 16%nat /\ IsV4 uid = true /\
            (err = None -> uid <> Nil) /\ (err <> None -> uid = Nil)).
  { intros v uid err st H. unfold NewUUID, fillUUID in H.
    destruct (io.ReadFull fuel (factory v tt) (repeat 0 16))
      as [[[[buf n] e0] s0]| |] eqn:Hread; cbn [bind] in H;
      try discriminate H.
    destruct e0 as [e0|]; cbn [bind] in H; injection H as <- <- <-.
    - repeat split; congruence.
    - destruct (ReadFull_result _ _ _ _ _ _ _ Hread) as (Hlen & _ & _).
      rewrite repeat_length in Hlen. explode_list buf Hlen.
      cbn [at_ nth upd].
      assert (H6 := version_bits b5). assert (H8 := variant_bits b7).
      split; [reflexivity|]. split; [|split].
      + apply IsV4_iff. right. cbn [at_ nth]. auto.
      + intros _ Hnil.
        apply (f_equal (fun u => Z.shiftr (at_ u 6) 4)) in Hnil.
        cbn [at_ nth Nil repeat] in Hnil. rewrite H6 in Hnil.
        discriminate Hnil.
      + congruence. }
  split; [exact Hgen|].
  intros r uid err st H. unfold New in H.
  destruct (Hgen (NewV4Generator (SecureReader r)) uid err st H)
    as (_ & G2 & G3 & G4).
  split; [exact G2|]. split; [exact G3|].
  intros Hne. destruct err; [|reflexivity].
  exfalso. apply Hne, G4. discriminate.
Qed.

Lemma NewUUID_outcome_witness :
  IsV4 Nil = true /\
  IsV4 [0; 1; 2; 3; 4; 5; 0x46; 7; 0x88; 9; 10; 11; 12; 13; 14; 15] = true /\
  [0; 1; 2; 3; 4; 5; 0x46; 7; 0x88; 9; 10; 11; 12; 13; 14; 15] <> Nil.
Proof.
  destruct (proj1 (NewUUID_outcome 1) (NewV4Generator ErrorsReader)
              Nil (Some EOF) tt eq_refl) as (_ & H1 & _).
  destruct (proj1 (NewUUID_outcome 1) (NewV4Generator StaticReader)
              [0; 1; 2; 3; 4; 5; 0x46; 7; 0x88; 9; 10; 11; 12; 13; 14; 15]
              None
              ([0; 1; 2; 3; 4; 5; 6; 7; 8; 9; 10; 11; 12; 13; 14; 15], 16%nat)
              eq_refl) as (_ & H2 & H3 & _).
  split; [exact H1|]. split; [exact H2|]. apply H3. reflexivity.
Defined.

(** ** The version in the text *)

Lemma version_digit (c : ascii) :
  is_hex_digit c = true ->
  (digit_value c = 4 <-> c = "4"%char) /\
  (8 <= digit_value c <= 11 <-> variant_digit c = true).
Proof.
  intros Hc.
  pose proof (all_chars (fun c =>
    negb (is_hex_digit c)
    || (Bool.eqb (digit_value c =? 4) (Ascii.eqb c "4")
        && Bool.eqb ((8 <=? digit_value c) && (digit_value c <=? 11))
                    (variant_digit c)))
    ltac:(vm_compute; reflexivity) c) as H.
  cbv beta in H. rewrite Hc in H. cbn [negb orb] in H.
  apply andb_true_iff in H as [H1 H2]. apply eqb_prop in H1, H2.
  split.
  - rewrite <- Z.eqb_eq, H1. apply Ascii.eqb_eq.
  - rewrite <- H2, andb_true_iff, Z.leb_le, Z.leb_le. reflexivity.
Qed.

(** For an accepted string the version and variant bits of the identifier
    are read off characters 14 and 19. *)
Lemma bits_of_text (s : string) :
  invalid_hex_digit s = false ->
  (at_ (decode s) 6 / 16 = 4 /\ at_ (decode s) 8 / 64 = 2) <->
  (String.get 14 s = Some "4"%char /\
   exists c, String.get 19 s = Some c /\ variant_digit c = true).
Proof.
  intros Hdigit. apply negb_false_iff in Hdigit.
  rewrite forallb_forall in Hdigit.
  assert (H14 := Hdigit 14%nat ltac:(cbn; tauto)).
  assert (H19 := Hdigit 19%nat ltac:(cbn; tauto)).
  change (at_ (decode s) 6) with (pair_value s 14).
  change (at_ (decode s) 8) with (pair_value s 19).
  unfold pair_ok, hex_at, pair_value, value_at in *. cbn [Nat.add] in *.
  destruct (String.get 14 s) as [c14|]; [|discriminate H14].
  destruct (String.get 15 s) as [c15|];
    [|rewrite andb_false_r in H14; discriminate H14].
  destruct (String.get 19 s) as [c19|]; [|discriminate H19].
  destruct (String.get 20 s) as [c20|];
    [|rewrite andb_false_r in H19; discriminate H19].
  apply andb_true_iff in H14 as [Ha Hb]. apply andb_true_iff in H19 as [Hc Hd].
  pose proof (digit_value_range _ Ha). pose proof (digit_value_range _ Hb).
  pose proof (digit_value_range _ Hc). pose proof (digit_value_range _ Hd).
  destruct (version_digit c14 Ha) as [V4 _].
  destruct (version_digit c19 Hc) as [_ V8].
  assert (E6 : (16 * digit_value c14 + digit_value c15) / 16 = digit_value c14)
    by (symmetry; apply (Z.div_unique _ 16 _ (digit_value c15)); lia).
  assert (E8 : (16 * digit_value c19 + digit_value c20) / 64 = 2 <->
               8 <= digit_value c19 <= 11).
  { split.
    - intros E. 
      pose proof (Z.mul_div_le (16 * digit_value c19 + digit_value c20) 64
                    ltac:(lia)).
      pose proof (Z.mul_succ_div_gt (16 * digit_value c19 + digit_value c20) 64
                    ltac:(lia)).
      rewrite E in *. lia.
    - intros E. symmetry.
      apply (Z.div_unique _ 64 2
               (16 * digit_value c19 + digit_value c20 - 128)); lia. }
  rewrite E6, E8, V4, V8. split.
  - intros [-> Hv]. split; [reflexivity|]. exists c19. auto.
  - intros [E (c & Ec & Hv)]. injection E as ->. injection Ec as ->. auto.
Qed.

(** X8: for a string [Parse] accepts, [IsV4] of the identifier is decided
    by two characters: it holds when character 14 is [4] and character 19
    is one of 8, 9, a, b, A, B, and otherwise only for the nil
    identifier. *)
Theorem IsV4_of_text (s : string) (u : UUID) :
  Parse s = Ret (u, None) ->
  (IsV4 u = true <->
   u = Nil \/
   (String.get 14 s = Some "4"%char /\
    exists c, String.get 19 s = Some c /\ variant_digit c = true)).
Proof.
  rewrite Parse_refines. intros H. injection H as H.
  apply Parse_spec_accepted in H as (_ & _ & Hdigit & ->).
  rewrite IsV4_iff, <- (bits_of_text s Hdigit).
  rewrite !Z.shiftr_div_pow2 by lia. reflexivity.
Qed.

Lemma IsV4_of_text_witness :
  IsV4 [0; 1; 2; 3; 4; 5; 0x46; 7; 0xb8; 9; 10; 11; 12; 13; 14; 15] = true.
Proof.
  apply (IsV4_of_text "00010203-0405-4607-B809-0a0b0c0d0e0f"
           [0; 1; 2; 3; 4; 5; 0x46; 7; 0xb8; 9; 10; 11; 12; 13; 14; 15]
           eq_refl).
  right. split; [reflexivity|]. exists "B"%char. split; reflexivity.
Defined.

Lemma lower_variant_digit (c : ascii) :
  lower_hex c = c ->
  (variant_digit c = true <-> In c ["8"; "9"; "a"; "b"]%char).
Proof.
  intros Hc.
  pose proof (all_chars (fun c =>
    negb (Ascii.eqb (lower_hex c) c)
    || Bool.eqb (variant_digit c)
                (existsb (Ascii.eqb c) ["8"; "9"; "a"; "b"]%char))
    ltac:(vm_compute; reflexivity) c) as H.
  cbv beta in H. rewrite Hc, Ascii.eqb_refl in H. cbn [negb orb] in H.
  apply eqb_prop in H. rewrite H, existsb_exists. split.
  - intros (x & Hin & Hx). apply Ascii.eqb_eq in Hx. subst x. exact Hin.
  - intros Hin. exists c. split; [exact Hin | apply Ascii.eqb_refl].
Qed.

(** X7: the text of an identifier shows whether it is a version-4 one: byte
    6 has the high half 0100 and byte 8 the top bits 10 exactly when
    character 14 of the text is [4] and character 19 is one of 8, 9, a,
    b. *)
Theorem version_in_text (u : UUID) :
  wf_uuid u = true ->
  exists s : string,
    String_ u = Ret s /\
    ((at_ u 6 / 16 = 4 /\ at_ u 8 / 64 = 2) <->
     (String.get 14 s = Some "4"%char /\
      exists c, String.get 19 s = Some c /\
                In c ["8"; "9"; "a"; "b"]%char)).
Proof.
  intros Hwf. exists (layout u). split; [apply String_layout, Hwf|].
  pose proof (Parse_spec_layout u Hwf) as Hp.
  apply Parse_spec_accepted in Hp as (_ & _ & Hdigit & Hu).
  destruct (canonical_accepted _ (layout_regex u Hwf)) as (_ & _ & _ & Hlow).
  rewrite Hu at 1 2. rewrite (bits_of_text _ Hdigit).
  assert (Hc : forall c, String.get 19 (layout u) = Some c ->
                         lower_hex c = c).
  { intros c Hget. pose proof (get_lower_hex_string (layout u) 19) as G.
    rewrite Hlow, Hget in G. cbn [option_map] in G. congruence. }
  split; intros [H14 (c & Hget & Hv)]; (split; [exact H14|]); exists c;
    (split; [exact Hget|]); apply (lower_variant_digit c (Hc c Hget)), Hv.
Qed.

Lemma version_in_text_witness :
  exists s : string,
    String_ [0; 1; 2; 3; 4; 5; 0x46; 7; 0x88; 9; 10; 11; 12; 13; 14; 15]
    = Ret s /\
    String.get 14 s = Some "4"%char /\
    exists c, String.get 19 s = Some c /\ In c ["8"; "9"; "a"; "b"]%char.
Proof.
  destruct (version_in_text
    [0; 1; 2; 3; 4; 5; 0x46; 7; 0x88; 9; 10; 11; 12; 13; 14; 15] eq_refl)
    as (s & Hs & Hiff).
  exists s. split; [exact Hs|]. apply Hiff. split; reflexivity.
Defined.

(** ** [parse] without the length check *)

Lemma get_some_lt (s : string) (i : nat) (c : ascii) :
  String.get i s = Some c -> (i < String.length s)%nat.
Proof.
  revert i; induction s as [|x s IH]; intros i H; cbn in *.
  - discriminate H.
  - destruct i; [lia|]. apply IH in H. lia.
Qed.

Lemma get_none_ge (s : string) (i : nat) :
  (String.length s <= i)%nat -> String.get i s = None.
Proof.
  intros H. destruct (String.get i s) as [c|] eqn:E; [|reflexivity].
  apply get_some_lt in E. lia.
Qed.

(** A run of the loop that ends without an error has read both characters
    of every pair. *)
Lemma parse_from_success_range (s : string) (indexes : list nat) :
  forall (i : nat) (uid u : UUID),
    parse_from s indexes i uid = Ret (u, None) ->
    forall start, In start indexes -> (start + 1 < String.length s)%nat.
Proof.
  induction indexes as [|x rest IH]; intros i uid u H start Hin.
  - contradiction.
  - cbn [parse_from] in H. unfold index in H.
    destruct (String.get x s) as [c1|]; cbn [bind] in H; [|discriminate H].
    destruct (String.get (x + 1) s) as [c2|] eqn:E2; cbn [bind] in H;
      [|discriminate H].
    destruct (hexToByte (code c1) (code c2)) as [v ok].
    destruct ok; cbn [negb] in H; [|discriminate H].
    destruct Hin as [<- | Hin].
    + apply (get_some_lt _ _ _ E2).
    + apply (IH _ _ _ H start Hin).
Qed.

(** The loop panics when it comes to a pair that lies beyond the end of
    the string, if every pair before it is made of digits. *)
Lemma parse_from_panics (s : string) (indexes : list nat) :
  forall (i : nat) (uid : UUID),
    (exists start, In start indexes /\ (String.length s <= start + 1)%nat) ->
    (forall start, In start indexes ->
                   (start + 1 < String.length s)%nat ->
                   pair_ok s start = true) ->
    parse_from s indexes i uid = Panic.
Proof.
  induction indexes as [|x rest IH]; intros i uid (start & Hin & Hout) Hok.
  - contradiction.
  - cbn [parse_from]. unfold index.
    destruct (Nat.ltb_spec (x + 1) (String.length s)) as [Hx | Hx].
    + destruct (get_in_range s x) as [c1 Hc1]; [lia|].
      destruct (get_in_range s (x + 1) Hx) as [c2 Hc2].
      rewrite Hc1, Hc2. cbn [bind].
      pose proof (Hok x (or_introl eq_refl) Hx) as Hpair.
      unfold pair_ok, hex_at in Hpair. rewrite Hc1, Hc2 in Hpair.
      destruct (hexToByte_spec c1 c2) as [Hsnd _].
      destruct (hexToByte (code c1) (code c2)) as [v ok].
      cbn [snd] in Hsnd. rewrite Hsnd, Hpair. cbn [negb].
      apply IH.
      * destruct Hin as [<- | Hin]; [lia|]. exists start. auto.
      * intros y Hy. apply Hok. right. exact Hy.
    + rewrite (get_none_ge s (x + 1) Hx).
      destruct (String.get x s); reflexivity.
Qed.

(** X9: [parse] itself does not look at the length of the string: on a
    string of fewer than 36 characters it never succeeds, and it panics
    with an index out of range unless a pair of characters before the end
    of the string is no pair of digits. [Parse] owes it to its length check
    that it never panics. *)
Theorem parse_needs_length (s : string) :
  (String.length s < 36)%nat ->
  (forall u : UUID, parse s hexStartedIndex <> Ret (u, None)) /\
  ((forall start, In start hexStartedIndex ->
                  (start + 1 < String.length s)%nat ->
                  pair_ok s start = true) ->
   parse s hexStartedIndex = Panic).
Proof.
  intros Hlen. split.
  - intros u H. unfold parse in H.
    pose proof (parse_from_success_range _ _ _ _ _ H 34%nat
                  ltac:(cbn; tauto)).
    lia.
  - intros Hok. unfold parse. apply parse_from_panics; [|exact Hok].
    exists 34%nat. split; [cbn; tauto | lia].
Qed.

Lemma parse_needs_length_witness :
  parse "00010203-0405-4607-8809-0a0b0c0d0e0" hexStartedIndex = Panic.
Proof.
  apply (parse_needs_length "00010203-0405-4607-8809-0a0b0c0d0e0").
  - cbn. lia.
  - intros start Hin Hlt. cbn [In hexStartedIndex] in Hin.
    repeat (destruct Hin as [<- | Hin]; [first [reflexivity | cbn in Hlt; lia]|]).
    contradiction.
Defined.

(** ** The destination of [encodeHex] *)

Lemma write_at_app (a b mem : list byte) (pos : nat) :
  write_at pos (a ++ b) mem = write_at (pos + length a) b (write_at pos a mem).
Proof.
  revert pos mem; induction a as [|x a IH]; intros pos mem; cbn [app write_at length].
  - rewrite Nat.add_0_r. reflexivity.
  - rewrite IH. f_equal. lia.
Qed.

Lemma nth_upd {A : Type} (l : list A) (i j : nat) (v d : A) :
  nth i (upd j v l) d
  = if ((i =? j) && (j <? length l))%nat then v else nth i l d.
Proof.
  revert i j; induction l as [|x l IH]; intros i j.
  - destruct i, j; cbn; rewrite ?andb_false_r; reflexivity.
  - destruct j as [|j], i as [|i]; cbn [upd nth length]; try reflexivity.
    rewrite IH. reflexivity.
Qed.

(** A write that fits changes the positions it covers and no other. *)
Lemma nth_write_at (data : list byte) :
  forall (pos : nat) (mem : list byte) (i : nat) (d : byte),
    (pos + length data <= length mem)%nat ->
    nth i (write_at pos data mem) d
    = if ((pos <=? i) && (i <? pos + length data))%nat
      then nth (i - pos) data d else nth i mem d.
Proof.
  induction data as [|b data IH]; intros pos mem i d Hfit;
    cbn [write_at length] in *.
  - replace ((pos <=? i) && (i <? pos + 0))%nat with false; [reflexivity|].
    symmetry. apply andb_false_iff.
    destruct (Nat.leb_spec pos i); [right; apply Nat.ltb_ge; lia | auto].
  - rewrite IH by (rewrite length_upd; lia). rewrite nth_upd.
    destruct (Nat.leb_spec (S pos) i) as [H1 | H1];
      destruct (Nat.ltb_spec i (S pos + length data)) as [H2 | H2];
      destruct (Nat.leb_spec pos i) as [H3 | H3];
      destruct (Nat.ltb_spec i (pos + S (length data))) as [H4 | H4];
      destruct (Nat.eqb_spec i pos) as [H5 | H5];
      destruct (Nat.ltb_spec pos (length mem)) as [H6 | H6];
      cbn [andb]; try lia; try reflexivity.
    + replace (i - pos)%nat with (S (i - S pos)) by lia. reflexivity.
    + subst i. rewrite Nat.sub_diag. reflexivity.
Qed.

(** [hex.Encode] panics when its window is too short for the source. *)
Lemma Encode_from_short (src : list byte) :
  forall (j : nat) (dst : slice) (mem : list byte),
    forallb is_byte src = true ->
    (j <= size dst < j + 2 * length src)%nat ->
    hex.Encode_from j src dst mem = Panic.
Proof.
  induction src as [|v src IH]; intros j dst mem Hsrc Hshort.
  - cbn [length] in Hshort. lia.
  - cbn [forallb] in Hsrc. apply andb_true_iff in Hsrc as [Hv Hsrc].
    cbn [length] in Hshort.
    destruct (hextable_digits v Hv) as [Hhi Hlo].
    cbn [hex.Encode_from]. rewrite Hhi. cbn [bind]. unfold store.
    destruct (Nat.ltb_spec j (size dst)); cbn [bind]; [|reflexivity].
    rewrite Hlo. cbn [bind].
    destruct (Nat.ltb_spec (j + 1) (size dst)); cbn [bind]; [|reflexivity].
    apply IH; [assumption | lia].
Qed.

Lemma layout_bytes_string (u : UUID) :
  string_of_bytes (layout_bytes u) = layout u.
Proof.
  unfold layout_bytes, layout, hex_string.
  rewrite !string_of_bytes_app. reflexivity.
Qed.

Lemma length_hex_bytes (src : list byte) :
  length (hex_bytes src) = (2 * length src)%nat.
Proof.
  induction src as [|v src IH]; cbn [hex_bytes length]; [reflexivity | lia].
Qed.

Lemma store_ok (mem : list byte) (d : slice) (j : nat) (v : byte) :
  (j < size d)%nat -> store mem d j v = Ret (upd (off d + j) v mem).
Proof.
  intros H. unfold store.
  destruct (Nat.ltb_spec j (size d)); [reflexivity | lia].
Qed.

Lemma store_panics (mem : list byte) (d : slice) (j : nat) (v : byte) :
  (size d <= j)%nat -> store mem d j v = Panic.
Proof.
  intros H. unfold store.
  destruct (Nat.ltb_spec j (size d)); [lia | reflexivity].
Qed.

Lemma reslice_ok (d : slice) (lo hi : nat) :
  (lo <= hi <= cap d)%nat ->
  reslice d lo hi = Ret (Slice (off d + lo) (hi - lo) (cap d - lo)).
Proof.
  intros H. unfold reslice.
  destruct (Nat.leb_spec lo hi); [|lia].
  destruct (Nat.leb_spec hi (cap d)); [reflexivity | lia].
Qed.

Ltac slice_side := solve [bytes_side | cbn [size cap off length]; lia].

(** With room for 36 bytes [encodeHex] writes the canonical form at the
    start of its destination. *)
Lemma encodeHex_fits (o n c : nat) (u : UUID) (mem : list byte) :
  wf_uuid u = true -> (36 <= n <= c)%nat ->
  encodeHex (Slice o n c) u mem = Ret (write_at o (layout_bytes u) mem).
Proof.
  intros Hwf Hn. explode_uuid u Hwf.
  unfold encodeHex, hex.Encode, layout_bytes.
  cbn [sub firstn skipn size].
  rewrite Encode_from_spec by slice_side. cbn [bind].
  rewrite store_ok by slice_side. cbn [bind].
  rewrite reslice_ok by slice_side. cbn [bind].
  rewrite Encode_from_spec by slice_side. cbn [bind].
  rewrite store_ok by slice_side. cbn [bind].
  rewrite reslice_ok by slice_side. cbn [bind].
  rewrite Encode_from_spec by slice_side. cbn [bind].
  rewrite store_ok by slice_side. cbn [bind].
  rewrite reslice_ok by slice_side. cbn [bind].
  rewrite Encode_from_spec by slice_side. cbn [bind].
  rewrite store_ok by slice_side. cbn [bind].
  rewrite reslice_ok by slice_side. cbn [bind].
  rewrite Encode_from_spec by slice_side.
  rewrite !write_at_app. cbn [write_at].
  rewrite !length_hex_bytes. cbn [length off].
  repeat (f_equal; try lia).
Qed.

(** Without room for 36 bytes it panics. *)
Lemma encodeHex_short (o n c : nat) (u : UUID) (mem : list byte) :
  wf_uuid u = true -> (n < 36)%nat -> (n <= c)%nat ->
  encodeHex (Slice o n c) u mem = Panic.
Proof.
  intros Hwf Hn Hc. explode_uuid u Hwf.
  unfold encodeHex, hex.Encode.
  cbn [sub firstn skipn size].
  destruct (Nat.lt_ge_cases n 8);
    [rewrite Encode_from_short by slice_side; reflexivity|].
  rewrite Encode_from_spec by slice_side. cbn [bind].
  destruct (Nat.lt_ge_cases 8 n);
    [|rewrite store_panics by slice_side; reflexivity].
  rewrite store_ok by slice_side. cbn [bind].
  destruct (Nat.lt_ge_cases c 13) as [Hc13 | Hc13].
  { unfold reslice. cbn [cap].
    destruct (Nat.leb_spec 13 c); [lia|]. reflexivity. }
  rewrite reslice_ok by slice_side. cbn [bind].
  rewrite Encode_from_spec by slice_side. cbn [bind].
  destruct (Nat.lt_ge_cases 13 n);
    [|rewrite store_panics by slice_side; reflexivity].
  rewrite store_ok by slice_side. cbn [bind].
  destruct (Nat.lt_ge_cases c 18) as [Hc18 | Hc18].
  { unfold reslice. cbn [cap].
    destruct (Nat.leb_spec 18 c); [lia|]. reflexivity. }
  rewrite reslice_ok by slice_side. cbn [bind].
  rewrite Encode_from_spec by slice_side. cbn [bind].
  destruct (Nat.lt_ge_cases 18 n);
    [|rewrite store_panics by slice_side; reflexivity].
  rewrite store_ok by slice_side. cbn [bind].
  destruct (Nat.lt_ge_cases c 23) as [Hc23 | Hc23].
  { unfold reslice. cbn [cap].
    destruct (Nat.leb_spec 23 c); [lia|]. reflexivity. }
  rewrite reslice_ok by slice_side. cbn [bind].
  rewrite Encode_from_spec by slice_side. cbn [bind].
  destruct (Nat.lt_ge_cases 23 n);
    [|rewrite store_panics by slice_side; reflexivity].
  rewrite store_ok by slice_side. cbn [bind].
  rewrite reslice_ok by slice_side. cbn [bind].
  apply Encode_from_short; slice_side.
Qed.

Lemma length_layout_bytes (u : UUID) :
  wf_uuid u = true -> length (layout_bytes u) = 36%nat.
Proof. intros Hwf. explode_uuid u Hwf. reflexivity. Qed.

(** X10: [encodeHex] needs a destination of at least 36 bytes. With a
    shorter one it panics (an index or a slice bound out of range); with 36
    or more it returns, having written the 36 bytes of the canonical form
    at the start of the destination and nothing anywhere else in the
    backing array. *)
Theorem encodeHex_bounds (dst : slice) (u : UUID) (mem : list byte) :
  wf_uuid u = true ->
  (size dst <= cap dst)%nat ->
  ((size dst < 36)%nat -> encodeHex dst u mem = Panic) /\
  ((36 <= size dst)%nat ->
   (off dst + size dst <= length mem)%nat ->
   exists mem' : list byte,
     encodeHex dst u mem = Ret mem' /\
     length mem' = length mem /\
     (forall k, (k < 36)%nat ->
                nth (off dst + k) mem' 0 = nth k (layout_bytes u) 0) /\
     (forall i, (i < off dst \/ off dst + 36 <= i)%nat ->
                nth i mem' 0 = nth i mem 0) /\
     string_of_bytes (layout_bytes u) = layout u).
Proof.
  intros Hwf Hcap. destruct dst as [o n c]. cbn [off size cap] in *. split.
  - intros Hn. apply encodeHex_short; assumption.
  - intros Hn Hmem. exists (write_at o (layout_bytes u) mem).
    pose proof (length_layout_bytes u Hwf) as Hlen.
    split; [apply encodeHex_fits; [assumption | lia]|].
    split; [apply length_write_at|]. split; [|split].
    + intros k Hk. rewrite nth_write_at by lia. rewrite Hlen.
      destruct (Nat.leb_spec o (o + k)); [|lia].
      destruct (Nat.ltb_spec (o + k) (o + 36)); [|lia].
      cbn [andb]. f_equal. lia.
    + intros i Hi. rewrite nth_write_at by lia. rewrite Hlen.
      destruct (Nat.leb_spec o i); destruct (Nat.ltb_spec i (o + 36));
        cbn [andb]; try reflexivity; lia.
    + apply layout_bytes_string.
Qed.

Lemma encodeHex_bounds_witness :
  encodeHex (Slice 0 35 36) Nil (repeat 0 36) = Panic /\
  exists mem' : list byte,
    encodeHex (Slice 2 36 38) Nil (repeat 7 40) = Ret mem' /\
    nth 0 mem' 0 = 7 /\ nth 2 mem' 0 = 48 /\ nth 10 mem' 0 = dash /\
    nth 38 mem' 0 = 7.
Proof.
  split.
  - apply (encodeHex_bounds (Slice 0 35 36) Nil (repeat 0 36));
      [reflexivity | cbn; lia | cbn; lia].
  - destruct (proj2 (encodeHex_bounds (Slice 2 36 38) Nil (repeat 7 40)
                       eq_refl ltac:(cbn; lia))
                ltac:(cbn; lia) ltac:(cbn; lia))
      as (mem' & Hret & _ & Hin & Hout & _).
    exists mem'. split; [exact Hret|].
    split; [apply (Hout 0%nat); cbn; lia|].
    split; [apply (Hin 0%nat); lia|].
    split; [apply (Hin 8%nat); lia|].
    apply (Hout 38%nat); cbn; lia.
Defined.

(** ** The readers of the package *)

(** X11: [fillUUID] on a [bytes.Reader]: over no bytes at all it gives
    [io.EOF], over fewer than sixteen [io.ErrUnexpectedEOF], both with the
    nil identifier; over sixteen or more it gives the first sixteen and
    leaves the others unread. *)
Theorem fillUUID_of_bytes (fuel : nat) (data : list byte) :
  fillUUID (S fuel) (bytes.NewReader [])
  = Ret (Nil, Some EOF, ([], 0%nat)) /\
  ((0 < length data < 16)%nat ->
   fillUUID (S (S fuel)) (bytes.NewReader data)
   = Ret (Nil, Some ErrUnexpectedEOF, (data, length data))) /\
  ((16 <= length data)%nat ->
   fillUUID (S fuel) (bytes.NewReader data)
   = Ret (firstn 16 data, None, (data, 16%nat))).
Proof.
  split; [destruct fuel; reflexivity|]. split.
  - intros [Hpos Hshort].
    destruct data as [|b0 data]; [cbn in Hpos; lia|].
    do 15 (destruct data as [|? data]; [destruct fuel; reflexivity|]).
    cbn [length] in Hshort. lia.
  - intros Hlen.
    do 16 (destruct data as [|? data]; [cbn [length] in Hlen; lia|]).
    destruct fuel; reflexivity.
Qed.

Lemma fillUUID_of_bytes_witness :
  fillUUID 2 (bytes.NewReader [1; 2; 3])
  = Ret (Nil, Some ErrUnexpectedEOF, ([1; 2; 3], 3%nat)) /\
  fillUUID 1 (bytes.NewReader
    [1; 2; 3; 4; 5; 6; 7; 8; 9; 10; 11; 12; 13; 14; 15; 16; 17; 18])
  = Ret ([1; 2; 3; 4; 5; 6; 7; 8; 9; 10; 11; 12; 13; 14; 15; 16], None,
         ([1; 2; 3; 4; 5; 6; 7; 8; 9; 10; 11; 12; 13; 14; 15; 16; 17; 18],
          16%nat)).
Proof.
  split.
  - apply (fillUUID_of_bytes 0 [1; 2; 3]). cbn. lia.
  - apply (proj2 (proj2 (fillUUID_of_bytes 0
      [1; 2; 3; 4; 5; 6; 7; 8; 9; 10; 11; 12; 13; 14; 15; 16; 17; 18]))).
    cbn. lia.
Defined.

(** X13: a generator over [ErrorsReader] fails at every call with [io.EOF]
    itself, not [io.ErrUnexpectedEOF], and the nil identifier. *)
Theorem ErrorsReader_always_EOF (fuel : nat) :
  NewUUID (S fuel) (NewV4Generator ErrorsReader) = Ret (Nil, Some EOF, tt) /\
  NewUUID_twice (S fuel) (NewV4Generator ErrorsReader)
  = Ret ((Nil, Some EOF), (Nil, Some EOF)).
Proof.
  assert (H : NewUUID (S fuel) (NewV4Generator ErrorsReader)
              = Ret (Nil, Some EOF, tt)) by (destruct fuel; reflexivity).
  split; [exact H|]. unfold NewUUID_twice, returned. rewrite H. reflexivity.
Qed.

(** ** Bytes that are a version-4 identifier already *)

Lemma stamp_fixed (b : byte) :
  is_byte b = true ->
  (Z.lor (Z.land b 0x0f) 0x40 = b <-> b / 16 = 4) /\
  (Z.lor (Z.land b 0x3f) 0x80 = b <-> b / 64 = 2).
Proof.
  intros Hb.
  pose proof (all_bytes (fun b =>
    Bool.eqb (Z.lor (Z.land b 0x0f) 0x40 =? b) (b / 16 =? 4)
    && Bool.eqb (Z.lor (Z.land b 0x3f) 0x80 =? b) (b / 64 =? 2))
    ltac:(vm_compute; reflexivity) b Hb) as H.
  cbv beta in H. apply andb_true_iff in H as [H1 H2].
  apply eqb_prop in H1, H2.
  rewrite <- !Z.eqb_eq, H1, H2. split; reflexivity.
Qed.

(** X14: fed sixteen bytes, [NewUUID] returns them unchanged exactly when
    they carry the version and variant bits already; any other sixteen
    bytes come back altered in byte 6 or byte 8. *)
Theorem NewUUID_keeps_v4_bytes (fuel : nat) (data : list byte) :
  wf_uuid data = true ->
  (returned (NewUUID (S fuel) (NewV4Generator (fun _ => bytes.NewReader data)))
   = Ret (data, None)
   <-> at_ data 6 / 16 = 4 /\ at_ data 8 / 64 = 2).
Proof.
  intros Hwf.
  assert (Hlen : length data = 16%nat).
  { unfold wf_uuid in Hwf. apply andb_true_iff in Hwf as [Hlen _].
    apply Nat.eqb_eq, Hlen. }
  rewrite (NewUUID_of_bytes fuel data Hlen).
  explode_uuid data Hwf. cbn [at_ nth upd].
  destruct (stamp_fixed b5 Hb5) as [S6 _].
  destruct (stamp_fixed b7 Hb7) as [_ S8].
  rewrite <- S6, <- S8. split.
  - intros H. injection H as H6 H8. auto.
  - intros [H6 H8]. rewrite H6, H8. reflexivity.
Qed.

Lemma NewUUID_keeps_v4_bytes_witness :
  returned (NewUUID 1 (NewV4Generator (fun _ => bytes.NewReader
    [0; 1; 2; 3; 4; 5; 0x46; 7; 0x88; 9; 10; 11; 12; 13; 14; 15])))
  = Ret ([0; 1; 2; 3; 4; 5; 0x46; 7; 0x88; 9; 10; 11; 12; 13; 14; 15], None).
Proof.
  apply (NewUUID_keeps_v4_bytes 0
    [0; 1; 2; 3; 4; 5; 0x46; 7; 0x88; 9; 10; 11; 12; 13; 14; 15] eq_refl).
  split; reflexivity.
Defined.
